(** * AutoGrain: grain-size measurement engine of [AutoGrain.py]

    A shallow embedding of the computational core of [GrainAnalyzerApp]:
    the material table, the scale calibrator
    ([_finalize_scale_measurement]), the circular-intercept sampling loop
    and the metric chain of [analyze_grains], and [calculate_astm].

    Numbers.  Python [int] is [Z].  A Python [float] that only feeds the
    continuous formulas (distances, circumference, intercept lengths, grain
    number, yield strength) is idealised as a real number, and the
    exceptions of the float operations are kept: division by zero,
    [0.0 ** -0.5], [math.log10] outside its domain.  The two places where a
    float product is truncated to an [int] and then decides pixel geometry,
    [int(min_dim * 0.35)] and [int(w * 0.1)], are computed in IEEE-754
    binary64 with the reference operations of [SpecFloat].

    OpenCV and the random module are external: they enter through the
    interface [Vision].

    The display and the window.  [display_image] computes its scale ratio
    and resize target in binary64 ([Display]); the handlers [load_image],
    [activate_scale_tool], [on_canvas_click],
    [_finalize_scale_measurement] and [analyze_grains] act on the
    attributes they read ([Gui]), the answers of dialogs and of the
    libraries being given with each event. *)

From Stdlib Require Import ZArith List String Bool Lia.
From Stdlib Require Import Reals Lra.
From Stdlib Require Import Floats.SpecFloat.
Import ListNotations.

Local Open Scope Z_scope.

(** ** Python exceptions and results *)

Inductive exn : Type :=
| ZeroDivisionError
| ValueError
| OverflowError
| TypeError
| KeyError (key : string).

Inductive result (A : Type) : Type :=
| Ok (a : A)
| Raise (e : exn).
Arguments Ok {A} a.
Arguments Raise {A} e.

Definition bind {A B : Type} (r : result A) (k : A -> result B) : result B :=
  match r with
  | Ok a => k a
  | Raise e => Raise e
  end.

Declare Scope py_scope.
Delimit Scope py_scope with py.
Notation "x <- r ;; k" := (bind r (fun x => k))
  (at level 61, r at next level, right associativity) : py_scope.

(** ** IEEE-754 binary64, for the float products that are truncated *)

Module Binary64.

Definition prec : Z := 53.
Definition emax : Z := 1024.

(** The literals [0.35] and [0.1] as binary64 values: the doubles nearest
    to the decimal numbers. *)
Definition lit_0_35 : spec_float := S754_finite false 6305039478318694 (-54).
Definition lit_0_1 : spec_float := S754_finite false 7205759403792794 (-56).

(** [float(n)] for a Python [int]: round to nearest even, OverflowError
    when the integer is too large for a double. *)
Definition of_int (n : Z) : result spec_float :=
  match binary_normalize prec emax n 0 false with
  | S754_infinity _ => Raise OverflowError
  | x => Ok x
  end.

Definition mul (x y : spec_float) : spec_float := SFmul prec emax x y.
Definition div (x y : spec_float) : spec_float := SFdiv prec emax x y.
Definition sqrt (x : spec_float) : spec_float := SFsqrt prec emax x.

(** [int(x)] for a float: truncation toward zero; infinities raise
    OverflowError and NaN raises ValueError. *)
Definition to_int (x : spec_float) : result Z :=
  match x with
  | S754_zero _ => Ok 0
  | S754_infinity _ => Raise OverflowError
  | S754_nan => Raise ValueError
  | S754_finite s m e =>
      let a := match e with
               | Zneg p => Z.pos m / 2 ^ Z.pos p
               | _ => Z.pos m * 2 ^ e
               end in
      Ok (if s then - a else a)
  end.

(** [int(n * c)] for an [int] n and a float c. *)
Definition int_of_scaled (n : Z) (c : spec_float) : result Z :=
  (x <- of_int n ;; to_int (mul x c))%py.

End Binary64.

(** ** Python floats as real numbers *)

Module PyFloat.
Local Open Scope R_scope.

(** True division [x / y]. *)
Definition div (x y : R) : result R :=
  if Req_dec_T y 0 then Raise ZeroDivisionError else Ok (x / y).

(** [math.log10]. *)
Definition log10 (x : R) : result R :=
  if Rlt_dec 0 x then Ok (ln x / ln 10) else Raise ValueError.

(** A float expression of the source evaluates to a float, or, for a
    negative base under a fractional power, to a complex number. *)
Inductive number : Type :=
| Float (r : R)
| Complex.

(** [x ** -0.5]: a zero base raises ZeroDivisionError ("0.0 cannot be
    raised to a negative power"), a negative base gives a complex value. *)
Definition pow_neg_half (x : R) : result number :=
  if Rlt_dec 0 x then Ok (Float (Rpower x (- 0.5)))
  else if Req_dec_T x 0 then Raise ZeroDivisionError
  else Ok Complex.

(** [round(x)] to the nearest integer, ties to even. *)
Definition round_half_even (x : R) : Z :=
  let f := Int_part x in
  if Rlt_dec (x - IZR f) (1 / 2) then f
  else if Rlt_dec (1 / 2) (x - IZR f) then (f + 1)%Z
  else if Z.even f then f else (f + 1)%Z.

(** [round(x, 4)]. *)
Definition round4 (x : R) : R := IZR (round_half_even (x * 10000)) / 10000.

End PyFloat.

(** ** Material table *)

Record material : Type := { s0 : R; k : R }.

(** [self.materials_db]: Hall-Petch constants (sigma_0 in MPa, k in
    MPa * mm^0.5), in the order of the dict literal. *)
Definition materials_db : list (string * material) :=
  [ ("Steel (Low Carbon)"%string,      {| s0 := 70;  k := 23 |});
    ("Aluminum (1100-O Pure)"%string,  {| s0 := 15;  k := 2.2 |});
    ("Titanium (CP Grade 2)"%string,   {| s0 := 170; k := 12 |});
    ("Inconel 718 (Sol. Ann.)"%string, {| s0 := 350; k := 24 |});
    ("Brass (70/30 Cartridge)"%string, {| s0 := 70;  k := 12 |}) ]%R.

Fixpoint dict_find (db : list (string * material)) (key : string)
  : option material :=
  match db with
  | [] => None
  | (name, m) :: rest =>
      if String.eqb name key then Some m else dict_find rest key
  end.

(** [db[key]]: KeyError when the key is absent. *)
Definition dict_getitem (db : list (string * material)) (key : string)
  : result material :=
  match dict_find db key with
  | Some m => Ok m
  | None => Raise (KeyError key)
  end.

Definition dict_keys (db : list (string * material)) : list string :=
  map fst db.

(** ** Scale calibrator *)

Inductive scale_outcome : Type :=
| ScaleSet (px_per_micron : R) (pixel_scale_var : R)
| MeasurementCancelled.

(** Euclidean distance between two canvas clicks. *)
Definition dist_canvas_px (p1 p2 : Z * Z) : R :=
  sqrt (IZR ((fst p2 - fst p1) ^ 2 + (snd p2 - snd p1) ^ 2)).

(** [_finalize_scale_measurement]: [p1], [p2] are [self.scale_points],
    [length_microns] is the answer of the [askfloat] dialog ([None] when
    the dialog is cancelled).  The result carries the computed ratio and
    the value stored in [pixel_scale_var]. *)
Definition _finalize_scale_measurement
    (p1 p2 : Z * Z) (current_scale_ratio : R) (length_microns : option R)
  : result scale_outcome :=
  (dist_original_px <-
     match PyFloat.div (dist_canvas_px p1 p2) current_scale_ratio with
     | Raise ZeroDivisionError => Ok (dist_canvas_px p1 p2)
     | r => r
     end ;;
   match length_microns with
   | Some len =>
       if Req_dec_T len 0 then Ok MeasurementCancelled
       else
         px_per_micron <- PyFloat.div dist_original_px len ;;
         Ok (ScaleSet px_per_micron (PyFloat.round4 px_per_micron))
   | None => Ok MeasurementCancelled
   end)%py.

(** ** External collaborators: OpenCV, NumPy and the random module *)

(** What [analyze_grains] draws on [visualization]. *)
Inductive shape : Type :=
| Ring (center_x center_y radius : Z)      (* sampling circle, red *)
| Dot (x y : Z).                           (* intercept marker, radius 3 *)

Class Vision : Type := {
  (** BGR array returned by [cv2.imread] *)
  image : Type;
  (** single-channel [uint8] array *)
  mask : Type;
  (** state of the module-level generator of [random] *)
  rng : Type;
  (** stage 1 of [analyze_grains]: [cvtColor], CLAHE, [GaussianBlur],
      [adaptiveThreshold], [morphologyEx], [Canny], [bitwise_or] *)
  combined_edges : image -> mask;
  (** [combined_edges.shape], as (h, w) *)
  mask_shape : mask -> Z * Z;
  (** array dimensions are positive C [int]s *)
  mask_shape_range : forall m : mask,
    1 <= fst (mask_shape m) < 2 ^ 31 /\ 1 <= snd (mask_shape m) < 2 ^ 31;
  (** [random.randint(a, b)] *)
  randint : Z -> Z -> rng -> Z * rng;
  (** bounding rectangles (x, y, w_c, h_c) of the external contours of the
      mask intersected with the 1-pixel ring at the given centre and
      radius: [circle], [bitwise_and], [findContours], [boundingRect] *)
  ring_contours : mask -> Z -> Z -> Z -> list (Z * Z * Z * Z)
}.

(** ** The analysis of [analyze_grains] *)

(** [calculate_astm]: ASTM E112 grain size number from the mean lineal
    intercept in microns. *)
Definition calculate_astm (mean_intercept_um : R) : result R :=
  if Rle_dec mean_intercept_um 0 then Ok 0%R
  else
    let l_mm := (mean_intercept_um / 1000)%R in
    (lg <- PyFloat.log10 l_mm ;;
     Ok (- 6.643856 * lg - 3.288)%R)%py.

(** The Hall-Petch step with its [try ... except ZeroDivisionError]. *)
Definition hall_petch (s0 k d_mm : R) : result PyFloat.number :=
  match PyFloat.pow_neg_half d_mm with
  | Ok (PyFloat.Float p) => Ok (PyFloat.Float (s0 + k * p))
  | Ok PyFloat.Complex => Ok PyFloat.Complex
  | Raise ZeroDivisionError => Ok (PyFloat.Float 0)
  | Raise e => Raise e
  end.

(** The values interpolated into the report text [res_str]. *)
Record report : Type := {
  material_name : string;
  intercepts_counted : Z;
  avg_grain_intercept_um : R;
  astm_grain_number : R;
  d_mm : R;
  friction_stress : R;
  locking_parameter : R;
  yield_strength : R;
  overlay : list shape
}.

Section Engine.
Context {V : Vision}.

(** The variables of the sampling loop. *)
Record sampler_state : Type := {
  gen : rng;
  total_intercepts : Z;
  total_circumference_px : R;
  visualization : list shape
}.

Definition num_circles : nat := 5.

(** The test that sends a jittered centre back to the image centre. *)
Definition out_of_bounds (center_x center_y radius h w : Z) : bool :=
  (center_x - radius <? 0) || (center_x + radius >? w)
  || (center_y - radius <? 0) || (center_y + radius >? h).

(** The centre the loop body samples at, from the two random offsets. *)
Definition place_circle (h w radius dx dy : Z) : Z * Z :=
  let center_x := w / 2 + dx in
  let center_y := h / 2 + dy in
  if out_of_bounds center_x center_y radius h w
  then (w / 2, h / 2)
  else (center_x, center_y).

Definition marker (rect : Z * Z * Z * Z) : shape :=
  let '(x, y, w_c, h_c) := rect in Dot (x + w_c / 2) (y + h_c / 2).

(** One iteration of [for i in range(num_circles)]. *)
Definition sample_circle (edges : mask) (h w radius : Z) (st : sampler_state)
  : result sampler_state :=
  (jx <- Binary64.int_of_scaled w Binary64.lit_0_1 ;;
   let '(dx, g1) := randint (- jx) jx (gen st) in
   jy <- Binary64.int_of_scaled h Binary64.lit_0_1 ;;
   let '(dy, g2) := randint (- jy) jy g1 in
   let '(center_x, center_y) := place_circle h w radius dx dy in
   let contours := ring_contours edges center_x center_y radius in
   let n_intercepts := Z.of_nat (List.length contours) in
   Ok {| gen := g2;
         total_intercepts := total_intercepts st + n_intercepts;
         total_circumference_px :=
           (total_circumference_px st + 2 * PI * IZR radius)%R;
         visualization :=
           visualization st
           ++ Ring center_x center_y radius :: map marker contours |})%py.

Fixpoint sample_loop (edges : mask) (h w radius : Z) (n : nat)
    (st : sampler_state) : result sampler_state :=
  match n with
  | O => Ok st
  | S n' =>
      (st' <- sample_circle edges h w radius st ;;
       sample_loop edges h w radius n' st')%py
  end.

(** [int(min_dim * 0.35)]. *)
Definition sampling_radius (h w : Z) : result Z :=
  Binary64.int_of_scaled (Z.min h w) Binary64.lit_0_35.

(** Stage 2: the ASTM circular intercept method. *)
Definition sample_circles (edges : mask) (g : rng) : result sampler_state :=
  let '(h, w) := mask_shape edges in
  (radius <- sampling_radius h w ;;
   sample_loop edges h w radius num_circles
     {| gen := g;
        total_intercepts := 0;
        total_circumference_px := 0%R;
        visualization := [] |})%py.

(** Stages 3 and 4, after the zero-intercept test: the metric chain and
    the values of the report. *)
Definition compute_report (st : sampler_state) (scale_factor : R)
    (material_var : string) : result report :=
  (avg_intercept_px <-
     PyFloat.div (total_circumference_px st) (IZR (total_intercepts st)) ;;
   avg_grain_intercept_um <- PyFloat.div avg_intercept_px scale_factor ;;
   let d_mm := (avg_grain_intercept_um / 1000)%R in
   mat_data <- dict_getitem materials_db material_var ;;
   yield_strength <- hall_petch (s0 mat_data) (k mat_data) d_mm ;;
   g <- calculate_astm avg_grain_intercept_um ;;
   match yield_strength with
   | PyFloat.Complex => Raise TypeError
   | PyFloat.Float y =>
       Ok {| material_name := material_var;
             intercepts_counted := total_intercepts st;
             avg_grain_intercept_um := avg_grain_intercept_um;
             astm_grain_number := g;
             d_mm := d_mm;
             friction_stress := s0 mat_data;
             locking_parameter := k mat_data;
             yield_strength := y;
             overlay := visualization st |}
   end)%py.

(** The state of the application that [analyze_grains] reads. *)
Record app : Type := {
  original_image : option image;
  pixel_scale_var : R;
  material_var : string
}.

(** What a call of [analyze_grains] leaves behind. *)
Inductive outcome : Type :=
| LoadImageFirst                      (* showwarning, nothing computed *)
| InvalidPixelScale                   (* showerror, nothing computed *)
| NoBoundariesFound (shown : mask)    (* "Analysis Failed: No boundaries found." *)
| Uncaught (e : exn)                  (* exception leaving the method *)
| Analysis (r : report).              (* report text and overlay *)

Definition analyze_grains (self : app) (g : rng) : outcome :=
  match original_image self with
  | None => LoadImageFirst
  | Some img =>
      let scale_factor := pixel_scale_var self in
      if Rle_dec scale_factor 0 then InvalidPixelScale
      else
        let edges := combined_edges img in
        match sample_circles edges g with
        | Raise e => Uncaught e
        | Ok st =>
            if total_intercepts st =? 0 then NoBoundariesFound edges
            else
              match compute_report st scale_factor (material_var self) with
              | Raise e => Uncaught e
              | Ok r => Analysis r
              end
        end
  end.

End Engine.

(** ** Vocabulary of the statements *)

(** The rings drawn on an overlay, as (centre x, centre y, radius). *)
Fixpoint rings (l : list shape) : list (Z * Z * Z) :=
  match l with
  | [] => []
  | Ring cx cy r :: rest => (cx, cy, r) :: rings rest
  | Dot _ _ :: rest => rings rest
  end.

(** A circle lies entirely within an image of height [h] and width [w]. *)
Definition within_bounds (h w : Z) (c : Z * Z * Z) : Prop :=
  let '(cx, cy, r) := c in
  0 <= cx - r /\ cx + r <= w /\ 0 <= cy - r /\ cy + r <= h.

(** Base-10 logarithm of a positive real. *)
Definition Rlog10 (x : R) : R := (ln x / ln 10)%R.

(** ** Two concrete frames, used to run the definitions *)

(** A 100 x 100 frame with no boundary pixel under any ring; the
    generator is a counter. *)
Definition blank_frame : Vision := {|
  image := unit;
  mask := unit;
  rng := nat;
  combined_edges := fun _ => tt;
  mask_shape := fun _ => (100, 100);
  mask_shape_range := fun _ => ltac:(cbn; lia);
  randint := fun a b n => (a + (Z.of_nat n * 7919) mod (b - a + 1), S n);
  ring_contours := fun _ _ _ _ => []
|}.

(** A 100 x 100 frame on which every ring crosses seven boundaries. *)
Definition gridded_frame : Vision := {|
  image := unit;
  mask := unit;
  rng := nat;
  combined_edges := fun _ => tt;
  mask_shape := fun _ => (100, 100);
  mask_shape_range := fun _ => ltac:(cbn; lia);
  randint := fun a b n => (a + (Z.of_nat n * 7919) mod (b - a + 1), S n);
  ring_contours := fun _ cx cy r =>
    map (fun i => (cx - r + 10 * i, cy, 2, 1)) [0; 1; 2; 3; 4; 5; 6]
|}.


(** Runs on these frames: an unlisted material on the blank frame and on
    the gridded frame, and steel on the gridded frame with the scale that
    makes the mean intercept 50 microns. *)
Definition blank_edges : @mask blank_frame := tt.
Definition gridded_edges : @mask gridded_frame := tt.

Definition blank_unknown_run : @app blank_frame :=
  {| original_image := Some (tt : @image blank_frame);
     pixel_scale_var := 1%R;
     material_var := "Unobtainium"%string |}.

Definition gridded_unknown_run : @app gridded_frame :=
  {| original_image := Some (tt : @image gridded_frame);
     pixel_scale_var := 1%R;
     material_var := "Unobtainium"%string |}.

Definition gridded_steel_run : @app gridded_frame :=
  {| original_image := Some (tt : @image gridded_frame);
     pixel_scale_var := (PI / 5)%R;
     material_var := "Steel (Low Carbon)"%string |}.


(** ** Display geometry of [display_image] *)

(** The real number a binary64 value stands for (0 for the values that
    are not numbers). *)
Definition float_value (x : spec_float) : R :=
  match x with
  | S754_finite s m e =>
      ((if s then - (1) else 1) * IZR (Z.pos m) * powerRZ 2 e)%R
  | _ => 0%R
  end.

Module Display.

(** True division [a / b] of two [int]s that convert exactly. *)
Definition truediv (a b : Z) : result spec_float :=
  if b =? 0 then Raise ZeroDivisionError
  else (x <- Binary64.of_int a ;;
        y <- Binary64.of_int b ;;
        Ok (Binary64.div x y))%py.

(** The builtin [min] of two floats: the second when it is smaller. *)
Definition min (x y : spec_float) : spec_float :=
  if SFltb y x then y else x.

(** What [display_image] computes from the canvas size reported by Tk
    and the shape of the array it is given. *)
Record geometry : Type := {
  canvas_width : Z;
  canvas_height : Z;
  scale_ratio : spec_float;
  new_w : Z;
  new_h : Z;
  x_center : Z;
  y_center : Z;
  img_offset_x : Z;
  img_offset_y : Z
}.

(** The ratio stored in [self.current_scale_ratio]. *)
Definition scale_to_fit (winfo_width winfo_height h w : Z)
  : result spec_float :=
  let canvas_width := if winfo_width <? 10 then 800 else winfo_width in
  let canvas_height := if winfo_height <? 10 then 600 else winfo_height in
  (rw <- truediv canvas_width w ;;
   rh <- truediv canvas_height h ;;
   Ok (min rw rh))%py.

Definition display_geometry (winfo_width winfo_height h w : Z)
  : result geometry :=
  let canvas_width := if winfo_width <? 10 then 800 else winfo_width in
  let canvas_height := if winfo_height <? 10 then 600 else winfo_height in
  (ratio <- scale_to_fit winfo_width winfo_height h w ;;
   new_w <- (x <- Binary64.of_int w ;; Binary64.to_int (Binary64.mul x ratio)) ;;
   new_h <- (x <- Binary64.of_int h ;; Binary64.to_int (Binary64.mul x ratio)) ;;
   let x_center := canvas_width / 2 in
   let y_center := canvas_height / 2 in
   Ok {| canvas_width := canvas_width;
         canvas_height := canvas_height;
         scale_ratio := ratio;
         new_w := new_w;
         new_h := new_h;
         x_center := x_center;
         y_center := y_center;
         img_offset_x := x_center - new_w / 2;
         img_offset_y := y_center - new_h / 2 |})%py.

End Display.

(** A positive normal binary64 number in canonical form, with its
    exponent between [lo] and [hi]. *)
Definition normal_in (lo hi : Z) (x : spec_float) : Prop :=
  exists m e,
    x = S754_finite false m e
    /\ 2 ^ 52 <= Z.pos m < 2 ^ 53
    /\ lo <= e <= hi.

(** The intercept markers drawn on an overlay. *)
Fixpoint dots (l : list shape) : list (Z * Z) :=
  match l with
  | [] => []
  | Dot x y :: rest => (x, y) :: dots rest
  | Ring _ _ _ :: rest => dots rest
  end.

(** ** The window: state and event handlers *)

(** Shapes of the colour arrays, [img.shape[:2]]. *)
Class Frames (V : Vision) : Type := {
  image_shape : image -> Z * Z;
  image_shape_range : forall img : image,
    1 <= fst (image_shape img) < 2 ^ 31 /\ 1 <= snd (image_shape img) < 2 ^ 31
}.

Module Gui.
Section Handlers.
Context {V : Vision} {F : Frames V}.

(** The texts [results_text] is set to. *)
Inductive message : Type :=
| LoadPrompt                       (* "Load a micrograph to begin analysis." *)
| ImageLoaded                      (* "Image Loaded. 1. Set Scale ..." *)
| MeasureMode                      (* "MEASURE MODE ACTIVE: ..." *)
| ScaleSetTo (px_per_micron : R)   (* "Scale Set! ... pixels = 1 micron." *)
| Cancelled                        (* "Measurement Cancelled." *)
| NoBoundaries                     (* "Analysis Failed: No boundaries found." *)
| ReportText (r : report).

(** What can leave a handler: a Python exception of the handler's own
    code, the [TclError] of reading a scale entry that holds no number,
    or a failure inside a call into OpenCV, PIL or the Tk canvas. *)
Inductive failure : Type :=
| AttributeError                   (* [self.current_scale_ratio] not yet set *)
| IndexError                       (* [self.scale_points[i]] *)
| Python (e : exn)
| TclError                         (* [self.pixel_scale_var.get()] *)
| External.

(** The attributes the handlers read.  Attributes and widget settings
    that are only written (the Tk image, the stored offsets, the button
    text, the canvas drawings) are left out.  [scale_entry_is_number]
    tells whether the text of the scale entry parses as a float, that is
    whether [self.pixel_scale_var.get()] returns; [pixel_scale_var] of
    [self] is then its value. *)
Record window : Type := {
  self : app;
  image_path : option string;
  processed_image : option image;
  setting_scale : bool;
  scale_points : list (Z * Z);
  current_scale_ratio : option spec_float;
  scale_entry_is_number : bool;
  results_text : message
}.

(** The state after [__init__]. *)
Definition init : window :=
  {| self := {| original_image := None;
                pixel_scale_var := 1%R;
                material_var := "Steel (Low Carbon)"%string |};
     image_path := None;
     processed_image := None;
     setting_scale := false;
     scale_points := [];
     current_scale_ratio := None;
     scale_entry_is_number := true;
     results_text := LoadPrompt |}.

Definition set_app (a : app) (st : window) : window :=
  {| self := a;
     image_path := image_path st;
     processed_image := processed_image st;
     setting_scale := setting_scale st;
     scale_points := scale_points st;
     current_scale_ratio := current_scale_ratio st;
     scale_entry_is_number := scale_entry_is_number st;
     results_text := results_text st |}.

Definition set_results (m : message) (st : window) : window :=
  {| self := self st;
     image_path := image_path st;
     processed_image := processed_image st;
     setting_scale := setting_scale st;
     scale_points := scale_points st;
     current_scale_ratio := current_scale_ratio st;
     scale_entry_is_number := scale_entry_is_number st;
     results_text := m |}.

Definition set_ratio (r : spec_float) (st : window) : window :=
  {| self := self st;
     image_path := image_path st;
     processed_image := processed_image st;
     setting_scale := setting_scale st;
     scale_points := scale_points st;
     current_scale_ratio := Some r;
     scale_entry_is_number := scale_entry_is_number st;
     results_text := results_text st |}.

Definition set_tool (on : bool) (points : list (Z * Z)) (st : window) : window :=
  {| self := self st;
     image_path := image_path st;
     processed_image := processed_image st;
     setting_scale := on;
     scale_points := points;
     current_scale_ratio := current_scale_ratio st;
     scale_entry_is_number := scale_entry_is_number st;
     results_text := results_text st |}.

Definition set_entry (ok : bool) (st : window) : window :=
  {| self := self st;
     image_path := image_path st;
     processed_image := processed_image st;
     setting_scale := setting_scale st;
     scale_points := scale_points st;
     current_scale_ratio := current_scale_ratio st;
     scale_entry_is_number := ok;
     results_text := results_text st |}.

(** [display_image] on an array of the given shape.  [winfo] is the canvas
    size Tk reports after [self.root.update()], which is taken to return
    and to run no other handler; [rendered] tells whether the OpenCV, PIL
    and Tk calls that follow the assignment of the ratio (resize, colour
    conversion, photo image, canvas update) return.  The other Tk calls of the handlers (message boxes, canvas
    drawings, widget settings, [set] of a variable) are taken to
    return. *)
Definition display_image (shape : Z * Z) (winfo : Z * Z) (rendered : bool)
    (st : window) : window * option failure :=
  let '(h, w) := shape in
  match Display.scale_to_fit (fst winfo) (snd winfo) h w with
  | Raise e => (st, Some (Python e))
  | Ok ratio =>
      let st1 := set_ratio ratio st in
      match Display.display_geometry (fst winfo) (snd winfo) h w with
      | Raise e => (st1, Some (Python e))
      | Ok _ => if rendered then (st1, None) else (st1, Some External)
      end
  end.

(** [load_image]: [file_path] is the answer of the file dialog (empty
    when cancelled), [img] what [cv2.imread] returns for it. *)
Definition load_image (file_path : string) (img : option image)
    (winfo : Z * Z) (rendered : bool) (st : window) : window * option failure :=
  if String.eqb file_path "" then (st, None)
  else
    let st1 :=
      {| self := self st;
         image_path := Some file_path;
         processed_image := processed_image st;
         setting_scale := setting_scale st;
         scale_points := scale_points st;
         current_scale_ratio := current_scale_ratio st;
         scale_entry_is_number := scale_entry_is_number st;
         results_text := results_text st |} in
    match img with
    | None => (st1, None)
    | Some i =>
        let st2 :=
          {| self := {| original_image := Some i;
                        pixel_scale_var := pixel_scale_var (self st1);
                        material_var := material_var (self st1) |};
             image_path := image_path st1;
             processed_image := Some i;
             setting_scale := setting_scale st1;
             scale_points := scale_points st1;
             current_scale_ratio := current_scale_ratio st1;
             scale_entry_is_number := scale_entry_is_number st1;
             results_text := results_text st1 |} in
        match display_image (image_shape i) winfo rendered st2 with
        | (st3, Some e) => (st3, Some e)
        | (st3, None) => (set_results ImageLoaded st3, None)
        end
    end.

Definition activate_scale_tool (st : window) : window :=
  match original_image (self st) with
  | None => st
  | Some _ => set_results MeasureMode (set_tool true [] st)
  end.

(** [_finalize_scale_measurement] with its effects on the window;
    [answer] is what the length dialog returns. *)
Definition _finalize_scale_measurement (answer : option R) (winfo : Z * Z)
    (rendered : bool) (st : window) : window * option failure :=
  match scale_points st with
  | p1 :: p2 :: _ =>
      match current_scale_ratio st with
      | None => (st, Some AttributeError)
      | Some ratio =>
          match _finalize_scale_measurement p1 p2 (float_value ratio) answer with
          | Raise e => (st, Some (Python e))
          | Ok (ScaleSet px_per_micron stored) =>
              let a := {| original_image := original_image (self st);
                          pixel_scale_var := stored;
                          material_var := material_var (self st) |} in
              let st1 := set_results (ScaleSetTo px_per_micron)
                           (set_entry true (set_app a st)) in
              (set_tool false (scale_points st1) st1, None)
          | Ok MeasurementCancelled =>
              let st1 := set_results Cancelled st in
              let shown :=
                match original_image (self st1) with
                | Some i => display_image (image_shape i) winfo rendered st1
                | None => (st1, None)
                end in
              match shown with
              | (st2, Some e) => (st2, Some e)
              | (st2, None) => (set_tool false (scale_points st2) st2, None)
              end
          end
      end
  | _ => (st, Some IndexError)
  end.

Definition on_canvas_click (x y : Z) (answer : option R) (winfo : Z * Z)
    (rendered : bool) (st : window) : window * option failure :=
  if negb (setting_scale st) then (st, None)
  else
    let st1 := set_tool (setting_scale st) (scale_points st ++ [(x, y)]) st in
    if (List.length (scale_points st1) =? 2)%nat
    then _finalize_scale_measurement answer winfo rendered st1
    else (st1, None).

(** [analyze_grains] with its effects on the window.  When the scale
    entry holds text that is not a number, [self.pixel_scale_var.get()]
    raises [TclError] inside Tk, which [except ValueError] does not
    catch. *)
Definition analyze_grains (g : rng) (winfo : Z * Z) (rendered : bool)
    (st : window) : window * option failure :=
  match original_image (self st) with
  | None => (st, None)
  | Some i =>
      if negb (scale_entry_is_number st) then (st, Some TclError)
      else
        match analyze_grains (self st) g with
        | LoadImageFirst => (st, None)
        | InvalidPixelScale => (st, None)
        | NoBoundariesFound edges =>
            display_image (mask_shape edges) winfo rendered
                          (set_results NoBoundaries st)
        | Uncaught e => (st, Some (Python e))
        | Analysis r =>
            display_image (image_shape i) winfo rendered
                          (set_results (ReportText r) st)
        end
  end.

(** What the user and the environment do.  The measure button is
    disabled while measure mode is on; here it may be pressed in any
    state. *)
Inductive event : Type :=
| PressUpload (file_path : string) (img : option image)
              (winfo : Z * Z) (rendered : bool)
| TypeScale (text : option R)              (* edit of the scale entry;
                                              [None]: not a number *)
| SelectMaterial (i : nat)                 (* choice in the read-only list *)
| PressMeasure
| ClickCanvas (x y : Z) (answer : option R) (winfo : Z * Z) (rendered : bool)
| PressAnalyze (g : rng) (winfo : Z * Z) (rendered : bool).

Definition handle (ev : event) (st : window) : window * option failure :=
  match ev with
  | PressUpload file_path img winfo rendered =>
      load_image file_path img winfo rendered st
  | TypeScale (Some x) =>
      (set_entry true
         (set_app {| original_image := original_image (self st);
                     pixel_scale_var := x;
                     material_var := material_var (self st) |} st), None)
  | TypeScale None => (set_entry false st, None)
  | SelectMaterial i =>
      (set_app {| original_image := original_image (self st);
                  pixel_scale_var := pixel_scale_var (self st);
                  material_var := nth i (dict_keys materials_db)
                                      (material_var (self st)) |} st, None)
  | PressMeasure => (activate_scale_tool st, None)
  | ClickCanvas x y answer winfo rendered =>
      on_canvas_click x y answer winfo rendered st
  | PressAnalyze g winfo rendered => analyze_grains g winfo rendered st
  end.

(** The Tk main loop: an exception that leaves a handler is reported and
    the window goes on from the state the handler left. *)
Fixpoint run (evs : list event) (st : window) : window :=
  match evs with
  | [] => st
  | ev :: rest => run rest (fst (handle ev st))
  end.

(** The canvas sizes Tk reports are C [int]s. *)
Definition winfo_of (ev : event) : option (Z * Z) :=
  match ev with
  | PressUpload _ _ winfo _ => Some winfo
  | ClickCanvas _ _ _ winfo _ => Some winfo
  | PressAnalyze _ winfo _ => Some winfo
  | _ => None
  end.

Definition well_sized (ev : event) : Prop :=
  match winfo_of ev with
  | Some (ww, wh) => ww < 2 ^ 31 /\ wh < 2 ^ 31
  | None => True
  end.

End Handlers.
End Gui.

(** What holds of the window between any two events. *)
Definition consistent {V : Vision} {F : Frames V} (st : Gui.window) : Prop :=
  (original_image (Gui.self st) <> None ->
   exists ratio, Gui.current_scale_ratio st = Some ratio
                 /\ normal_in (-105) 1 ratio)
  /\ (Gui.setting_scale st = true -> original_image (Gui.self st) <> None)
  /\ In (material_var (Gui.self st)) (dict_keys materials_db).

(** Colour arrays for the 100 x 100 gridded frame. *)
Definition gridded_arrays : Frames gridded_frame := {|
  image_shape := fun _ => (100, 100);
  image_shape_range := fun _ => ltac:(cbn; lia)
|}.

(** A handler ended without an exception of its own code. *)
Definition quiet (err : option Gui.failure) : Prop :=
  err = None \/ err = Some Gui.External \/ err = Some Gui.TclError.

(** A session on the gridded frame: a file is opened in a fresh window
    with an 800 x 600 canvas. *)
Definition gridded_session : list (@Gui.event gridded_frame) :=
  [Gui.PressUpload "grid.png" (Some (tt : @image gridded_frame)) (800, 600) true].

(** * Properties *)

(** ** Binary64: rounding of a product and its truncation *)

Section Binary64Facts.
Import Binary64.

Lemma iter_pos_comm {A : Type} (f : A -> A) (p : positive) :
  forall x, iter_pos f p (f x) = f (iter_pos f p x).
Proof.
  induction p as [p IH | p IH | ]; intro x; simpl.
  - now rewrite !IH.
  - now rewrite !IH.
  - reflexivity.
Qed.

Lemma iter_pos_succ {A : Type} (f : A -> A) (p : positive) (x : A) :
  iter_pos f (Pos.succ p) x = f (iter_pos f p x).
Proof.
  revert x. induction p as [p IH | p IH | ]; intro x; simpl.
  - rewrite !IH. now rewrite !iter_pos_comm.
  - now rewrite !iter_pos_comm.
  - reflexivity.
Qed.

(** One right shift halves the mantissa. *)
Lemma shr_1_m (r : shr_record) : 0 <= shr_m r -> shr_m (shr_1 r) = shr_m r / 2.
Proof.
  destruct r as [m r s]; cbn [shr_m]. intros Hm.
  destruct m as [ | [q | q | ] | q ]; cbn [shr_1 shr_m]; try lia.
  - reflexivity.
  - apply Z.div_unique with 1; lia.
  - apply Z.div_unique with 0; lia.
  - reflexivity.
Qed.

Lemma shr_iter_m (p : positive) : forall r, 0 <= shr_m r ->
  shr_m (iter_pos shr_1 p r) = shr_m r / 2 ^ Z.pos p.
Proof.
  induction p as [ | p IH] using Pos.peano_ind; intros r Hr.
  - simpl iter_pos. rewrite shr_1_m by assumption. reflexivity.
  - rewrite iter_pos_succ, shr_1_m.
    + rewrite IH by assumption. rewrite Pos2Z.inj_succ, Z.pow_succ_r by lia.
      rewrite Z.div_div by lia. f_equal. lia.
    + rewrite IH by assumption. apply Z.div_pos; lia.
Qed.

(** The digit count of [SpecFloat] is the binary logarithm plus one. *)
Lemma digits2_size (p : positive) : digits2_pos p = Pos.size p.
Proof. induction p; simpl; congruence. Qed.

Lemma digits2_log2 (p : positive) :
  Z.pos (digits2_pos p) = Z.log2 (Z.pos p) + 1.
Proof. destruct p; simpl; rewrite ?digits2_size; lia. Qed.

Lemma digits2_bounds (p : positive) :
  2 ^ (Z.pos (digits2_pos p) - 1) <= Z.pos p < 2 ^ Z.pos (digits2_pos p).
Proof.
  rewrite digits2_log2.
  replace (Z.log2 (Z.pos p) + 1 - 1) with (Z.log2 (Z.pos p)) by lia.
  replace (Z.log2 (Z.pos p) + 1) with (Z.succ (Z.log2 (Z.pos p))) by lia.
  apply Z.log2_spec. lia.
Qed.

Lemma digits2_unique (p : positive) (d : Z) :
  2 ^ (d - 1) <= Z.pos p < 2 ^ d -> Z.pos (digits2_pos p) = d.
Proof.
  intros H. rewrite digits2_log2.
  assert (0 <= d - 1).
  { destruct (Z_lt_le_dec (d - 1) 0) as [Hn | ]; [ | assumption].
    destruct (Z.eq_dec d 0) as [-> | ]. { simpl in H. lia. }
    rewrite (Z.pow_neg_r 2 d) in H by lia. lia. }
  rewrite (Z.log2_unique (Z.pos p) (d - 1)); [lia | lia | ].
  replace (Z.succ (d - 1)) with d by lia. assumption.
Qed.

Lemma iter_xO_pow (p k : positive) :
  Z.pos (Pos.iter xO p k) = Z.pos p * 2 ^ Z.pos k.
Proof.
  induction k as [ | k IH] using Pos.peano_ind.
  - cbn [Pos.iter]. lia.
  - rewrite Pos.iter_succ, Pos2Z.inj_xO, IH, Pos2Z.inj_succ, Z.pow_succ_r by lia.
    lia.
Qed.

Lemma fexp_normal (e : Z) : -1074 <= e - 53 -> fexp prec emax e = e - 53.
Proof. unfold fexp, emin, prec, emax. lia. Qed.

Lemma round_nearest_even_bounds (m : Z) (l : location) :
  m <= round_nearest_even m l <= m + 1.
Proof.
  destruct l as [ | [ | | ]]; cbn [round_nearest_even]; try lia.
  destruct (Z.even m); lia.
Qed.

(** A 53-bit mantissa in the normal range is kept as it is. *)
Lemma round_aux_fit (mz : positive) (ez : Z) :
  Z.pos (digits2_pos mz) = 53 -> -1074 <= ez <= 971 ->
  binary_round_aux prec emax false (Z.pos mz) ez loc_Exact
  = S754_finite false mz ez.
Proof.
  intros Hd He.
  assert (Hs : shr_fexp prec emax (Z.pos mz) ez loc_Exact
               = ({| shr_m := Z.pos mz; shr_r := false; shr_s := false |}, ez)).
  { unfold shr_fexp. cbn [Zdigits2 shr_record_of_loc].
    rewrite Hd, fexp_normal by lia.
    replace (53 + ez - 53 - ez) with 0 by lia. reflexivity. }
  unfold binary_round_aux. rewrite Hs.
  cbn [shr_m loc_of_shr_record round_nearest_even].
  rewrite Hs. cbn [shr_m].
  replace (ez <=? emax - prec) with true; [reflexivity | ].
  symmetry. apply Z.leb_le. unfold emax, prec. lia.
Qed.

(** A wider mantissa is shifted to 53 bits and rounded to nearest even:
    the result exceeds the exact value by at most one unit of the shift. *)
Lemma round_aux_wide (M : positive) (E : Z) :
  let D := Z.pos (digits2_pos M) in
  53 < D -> -1074 <= D + E - 53 -> D + E - 53 < 971 ->
  exists m3 e3,
    binary_round_aux prec emax false (Z.pos M) E loc_Exact = S754_finite false m3 e3
    /\ E + (D - 53) <= e3 <= E + (D - 53) + 1
    /\ Z.pos m3 * 2 ^ (e3 - E) <= Z.pos M + 2 ^ (D - 53).
Proof.
  intros D HD Hlo Hhi.
  pose proof (digits2_bounds M) as HM. fold D in HM.
  destruct (D - 53) as [ | pn | pn] eqn:Hn; try lia.
  set (n := Z.pos pn) in *.
  assert (Hpow : 2 ^ (D - 1) = 2 ^ 52 * 2 ^ n /\ 2 ^ D = 2 ^ 53 * 2 ^ n).
  { split.
    - rewrite <- Z.pow_add_r by lia. f_equal. lia.
    - rewrite <- Z.pow_add_r by lia. f_equal. lia. }
  destruct Hpow as [Hp1 Hp2].
  assert (Hn0 : 0 < 2 ^ n) by (apply Z.pow_pos_nonneg; lia).
  set (rec0 := {| shr_m := Z.pos M; shr_r := false; shr_s := false |}).
  set (mrs := iter_pos shr_1 pn rec0).
  assert (Hs1 : shr_fexp prec emax (Z.pos M) E loc_Exact = (mrs, E + n)).
  { unfold shr_fexp. cbn [Zdigits2 shr_record_of_loc]. fold D.
    rewrite fexp_normal by lia.
    replace (D + E - 53 - E) with n by lia. reflexivity. }
  assert (Hm1 : shr_m mrs = Z.pos M / 2 ^ n).
  { unfold mrs. rewrite shr_iter_m; [reflexivity | cbn; lia]. }
  assert (Hm1b : 2 ^ 52 <= shr_m mrs < 2 ^ 53).
  { rewrite Hm1. split.
    - apply Z.div_le_lower_bound; lia.
    - apply Z.div_lt_upper_bound; lia. }
  assert (Hm1c : shr_m mrs * 2 ^ n <= Z.pos M).
  { rewrite Hm1. rewrite Z.mul_comm. apply Z.mul_div_le. lia. }
  set (m2 := round_nearest_even (shr_m mrs) (loc_of_shr_record mrs)).
  pose proof (round_nearest_even_bounds (shr_m mrs) (loc_of_shr_record mrs)) as Hm2.
  fold m2 in Hm2.
  unfold binary_round_aux. rewrite Hs1. fold m2.
  destruct m2 as [ | q | q] eqn:Hq; try lia.
  destruct (Z_lt_le_dec (Z.pos q) (2 ^ 53)) as [Hlt | Hge].
  - (* no carry *)
    assert (Hdq : Z.pos (digits2_pos q) = 53) by (apply digits2_unique; lia).
    assert (Hs2 : shr_fexp prec emax (Z.pos q) (E + n) loc_Exact
                  = ({| shr_m := Z.pos q; shr_r := false; shr_s := false |}, E + n)).
    { unfold shr_fexp. cbn [Zdigits2 shr_record_of_loc]. rewrite Hdq, fexp_normal by lia.
      replace (53 + (E + n) - 53 - (E + n)) with 0 by lia. reflexivity. }
    rewrite Hs2. cbn [shr_m].
    replace (E + n <=? emax - prec) with true
      by (symmetry; apply Z.leb_le; unfold emax, prec; lia).
    exists q, (E + n). split; [reflexivity | ]. split; [lia | ].
    replace (E + n - E) with n by lia. nia.
  - (* the rounding carried into a 54th bit *)
    assert (Hq53 : Z.pos q = 2 ^ 53) by lia.
    assert (Hdq : Z.pos (digits2_pos q) = 54).
    { apply digits2_unique. rewrite Hq53. simpl. lia. }
    assert (Hs2 : shr_fexp prec emax (Z.pos q) (E + n) loc_Exact
                  = ({| shr_m := 2 ^ 52; shr_r := false; shr_s := false |}, E + n + 1)).
    { unfold shr_fexp. cbn [Zdigits2 shr_record_of_loc]. rewrite Hdq, fexp_normal by lia.
      replace (54 + (E + n) - 53 - (E + n)) with 1 by lia.
      assert (q = 9007199254740992%positive) as -> by lia. reflexivity. }
    rewrite Hs2. cbn [shr_m].
    change (2 ^ 52) with (Z.pos 4503599627370496).
    replace (E + n + 1 <=? emax - prec) with true
      by (symmetry; apply Z.leb_le; unfold emax, prec; lia).
    exists 4503599627370496%positive, (E + n + 1). split; [reflexivity | ]. split; [lia | ].
    replace (E + n + 1 - E) with (n + 1) by lia.
    rewrite Z.pow_add_r by lia. change (2 ^ 1) with 2.
    change (Z.pos 4503599627370496) with (2 ^ 52).
    assert (2 ^ 53 = 2 ^ 52 * 2) by reflexivity. nia.
Qed.

(** An integer below 2^53 converts exactly, with a normalised mantissa. *)
Lemma of_int_small (p : positive) :
  Z.pos p < 2 ^ 53 ->
  exists mx ex,
    of_int (Z.pos p) = Ok (S754_finite false mx ex)
    /\ ex = Z.pos (digits2_pos p) - 53
    /\ Z.pos mx = Z.pos p * 2 ^ (- ex)
    /\ 2 ^ 52 <= Z.pos mx < 2 ^ 53.
Proof.
  intros Hp.
  pose proof (digits2_bounds p) as Hd.
  set (d := Z.pos (digits2_pos p)) in *.
  assert (Hd53 : d <= 53).
  { destruct (Z_le_gt_dec d 53) as [ | Hgt]; [assumption | exfalso].
    assert (2 ^ 53 <= 2 ^ (d - 1)) by (apply Z.pow_le_mono_r; lia). lia. }
  unfold of_int, binary_normalize, binary_round.
  replace (Z.pos (digits2_pos p) + 0) with d by (unfold d; lia).
  rewrite fexp_normal by lia. unfold shl_align.
  destruct (d - 53 - 0) as [ | k | k] eqn:Hk; try lia.
  - assert (d = 53) as Hd' by lia. rewrite Hd' in *.
    rewrite round_aux_fit by (fold d; lia).
    exists p, 0. change (53 - 1) with 52 in Hd. repeat split; lia.
  - assert (Hmz : Z.pos (Pos.iter xO p k) = Z.pos p * 2 ^ (53 - d)).
    { rewrite iter_xO_pow. f_equal. f_equal. lia. }
    assert (Hsplit : 2 ^ 52 = 2 ^ (d - 1) * 2 ^ (53 - d) /\ 2 ^ 53 = 2 ^ d * 2 ^ (53 - d)).
    { split; rewrite <- Z.pow_add_r by lia; f_equal; lia. }
    assert (0 < 2 ^ (53 - d)) by (apply Z.pow_pos_nonneg; lia).
    assert (Hb : 2 ^ 52 <= Z.pos (Pos.iter xO p k) < 2 ^ 53).
    { rewrite Hmz. destruct Hsplit as [-> ->]. nia. }
    rewrite round_aux_fit.
    + exists (Pos.iter xO p k), (d - 53). repeat split; try lia.
      rewrite Hmz. f_equal. f_equal. lia.
    + apply digits2_unique. change (53 - 1) with 52. exact Hb.
    + lia.
Qed.

(** [int(n * c)] for a positive double [c = mc * 2^ec] below 1 and an
    array dimension [n]: the truncation is defined and bounded by the
    exact product with [mc] increased by two units. *)
Lemma int_of_scaled_bound (mc : positive) (ec : Z) (p : positive) :
  2 ^ 52 <= Z.pos mc < 2 ^ 53 -> -64 <= ec <= -53 ->
  Z.pos p < 2 ^ 31 ->
  exists r, int_of_scaled (Z.pos p) (S754_finite false mc ec) = Ok r
            /\ 0 <= r /\ r * 2 ^ (- ec) <= Z.pos p * (Z.pos mc + 2).
Proof.
  intros Hmc Hec Hp.
  destruct (of_int_small p) as (mx & ex & Hof & Hex & Hmx & Hmxb).
  { assert (2 ^ 31 < 2 ^ 53) by (apply Z.pow_lt_mono_r; lia). lia. }
  pose proof (digits2_bounds p) as Hd.
  set (d := Z.pos (digits2_pos p)) in *.
  assert (Hd31 : 1 <= d <= 31).
  { split; [unfold d; lia | ].
    destruct (Z_le_gt_dec d 31) as [ | Hgt]; [assumption | exfalso].
    assert (2 ^ 31 <= 2 ^ (d - 1)) by (apply Z.pow_le_mono_r; lia). lia. }
  unfold int_of_scaled. rewrite Hof. cbn [bind]. unfold mul. cbn [SFmul xorb].
  set (M := (mx * mc)%positive).
  assert (HM : Z.pos M = Z.pos mx * Z.pos mc) by (unfold M; lia).
  assert (HMb : 2 ^ 104 <= Z.pos M < 2 ^ 106).
  { rewrite HM. change (2 ^ 104) with (2 ^ 52 * 2 ^ 52).
    change (2 ^ 106) with (2 ^ 53 * 2 ^ 53). nia. }
  pose proof (digits2_bounds M) as HD.
  set (D := Z.pos (digits2_pos M)) in *.
  assert (HD' : 105 <= D <= 106).
  { split.
    - destruct (Z_le_gt_dec 105 D) as [ | Hgt]; [assumption | exfalso].
      assert (2 ^ D <= 2 ^ 104) by (apply Z.pow_le_mono_r; lia). lia.
    - destruct (Z_le_gt_dec D 106) as [ | Hgt]; [assumption | exfalso].
      assert (2 ^ 106 <= 2 ^ (D - 1)) by (apply Z.pow_le_mono_r; lia). lia. }
  destruct (round_aux_wide M (ex + ec)) as (m3 & e3 & Hr & He3 & Hval); fold D; try lia.
  rewrite Hr. cbn [to_int].
  destruct e3 as [ | pe | pe]; try lia.
  eexists. split; [reflexivity | ].
  set (r := Z.pos m3 / 2 ^ Z.pos pe).
  assert (Hpe : 0 < 2 ^ Z.pos pe) by (apply Z.pow_pos_nonneg; lia).
  assert (Hr0 : 0 <= r) by (apply Z.div_pos; lia).
  split; [assumption | ].
  assert (Hr1 : r * 2 ^ Z.pos pe <= Z.pos m3).
  { unfold r. rewrite Z.mul_comm. apply Z.mul_div_le. lia. }
  fold D in Hval.
  (* scale both sides to the exponent [ex + ec] of the exact product *)
  assert (Hexp : 2 ^ (- (ex + ec)) = 2 ^ Z.pos pe * 2 ^ (Z.neg pe - (ex + ec))).
  { rewrite <- Z.pow_add_r by lia. f_equal. lia. }
  assert (Hexp2 : 2 ^ (- (ex + ec)) = 2 ^ (- ex) * 2 ^ (- ec)).
  { rewrite <- Z.pow_add_r by lia. f_equal. lia. }
  assert (Hulp : 2 ^ (D - 53) <= 2 * Z.pos mx).
  { assert (2 ^ (D - 53) <= 2 ^ 53) by (apply Z.pow_le_mono_r; lia).
    change (2 ^ 53) with (2 * 2 ^ 52) in *. lia. }
  assert (Hq : 0 <= 2 ^ (Z.neg pe - (ex + ec))) by (apply Z.pow_nonneg; lia).
  assert (Hs : 0 < 2 ^ (- ex)) by (apply Z.pow_pos_nonneg; lia).
  assert (Hc : 0 < 2 ^ (- ec)) by (apply Z.pow_pos_nonneg; lia).
  assert (Hall : r * 2 ^ (- ex) * 2 ^ (- ec) <= Z.pos p * 2 ^ (- ex) * (Z.pos mc + 2)).
  { rewrite <- Z.mul_assoc, <- Hexp2, Hexp.
    rewrite <- Hmx. rewrite Z.mul_add_distr_l, <- HM.
    transitivity (Z.pos m3 * 2 ^ (Z.neg pe - (ex + ec))); [ | lia].
    rewrite Z.mul_assoc. apply Z.mul_le_mono_nonneg_r; assumption. }
  apply Z.mul_le_mono_pos_l with (p := 2 ^ (- ex)); [assumption | ]. 
  lia.
Qed.

Lemma sampling_radius_bound (m : Z) :
  1 <= m < 2 ^ 31 ->
  exists r, int_of_scaled m lit_0_35 = Ok r /\ 0 <= r /\ 2 * r <= m.
Proof.
  intros Hm. destruct m as [ | p | p]; try lia.
  destruct (int_of_scaled_bound 6305039478318694 (-54) p) as (r & Hr & H0 & Hb);
    try (cbn; lia).
  exists r. split; [exact Hr | ]. split; [assumption | ].
  change (2 ^ (- -54)) with 18014398509481984 in Hb. lia.
Qed.

Lemma jitter_bound (m : Z) :
  1 <= m < 2 ^ 31 ->
  exists j, int_of_scaled m lit_0_1 = Ok j /\ 0 <= j /\ 8 * j <= m.
Proof.
  intros Hm. destruct m as [ | p | p]; try lia.
  destruct (int_of_scaled_bound 7205759403792794 (-56) p) as (j & Hj & H0 & Hb);
    try (cbn; lia).
  exists j. split; [exact Hj | ]. split; [assumption | ].
  change (2 ^ (- -56)) with 72057594037927936 in Hb. lia.
Qed.

End Binary64Facts.

(** The two literals are the doubles nearest to 35/100 and 1/10: valid
    binary64 numbers within half a unit in the last place of the decimal
    value. *)
Lemma literals_nearest :
  valid_binary Binary64.prec Binary64.emax Binary64.lit_0_35 = true
  /\ Z.abs (100 * 6305039478318694 - 35 * 2 ^ 54) < 50
  /\ valid_binary Binary64.prec Binary64.emax Binary64.lit_0_1 = true
  /\ Z.abs (10 * 7205759403792794 - 2 ^ 56) < 5.
Proof. repeat split; reflexivity. Qed.

(** The rounding of the product is visible in the radius: 180 * 0.35 is
    the double just below 63. *)
Example sampling_radius_180 : sampling_radius 180 240 = Ok 62.
Proof. reflexivity. Qed.

Example sampling_radius_480 : sampling_radius 480 640 = Ok 168.
Proof. reflexivity. Qed.

Example jitter_640 : Binary64.int_of_scaled 640 Binary64.lit_0_1 = Ok 64.
Proof. reflexivity. Qed.

(** The two scenarios with round numbers stay exact in binary64:
    sqrt(10000) / 0.5 / 10 is the double 20, and 50 / 1000 is the double
    nearest to 0.05. *)
Example calibration_scenario_binary64 :
  (d <- Binary64.of_int (100 ^ 2 + 0 ^ 2) ;;
   len <- Binary64.of_int 10 ;;
   Ok (Binary64.div
         (Binary64.div (Binary64.sqrt d)
                       (S754_finite false 4503599627370496 (-53)))
         len))%py
  = Binary64.of_int 20.
Proof. reflexivity. Qed.

Example grain_diameter_binary64 :
  (a <- Binary64.of_int 50 ;;
   b <- Binary64.of_int 1000 ;;
   Ok (Binary64.div a b))%py
  = Ok (S754_finite false 7205759403792794 (-57))
  /\ Z.abs (100 * 7205759403792794 - 5 * 2 ^ 57) < 50.
Proof. split; reflexivity. Qed.

(** A placement that leaves the image is sent back to the centre, one
    that stays inside is kept. *)
Example place_circle_recentred : place_circle 100 100 35 20 0 = (50, 50).
Proof. reflexivity. Qed.

Example place_circle_kept : place_circle 100 100 35 10 (-10) = (60, 40).
Proof. reflexivity. Qed.

(** ** The sampling loop *)

Section SamplerFacts.
Context {V : Vision}.

Lemma rings_app (l1 l2 : list shape) : rings (l1 ++ l2) = rings l1 ++ rings l2.
Proof.
  induction l1 as [ | [cx cy r | x y] l1 IH]; simpl; [reflexivity | | ];
    now rewrite IH.
Qed.

Lemma rings_markers (l : list (Z * Z * Z * Z)) : rings (map marker l) = [].
Proof.
  induction l as [ | [[[x y] w_c] h_c] l IH]; simpl; [reflexivity | exact IH].
Qed.

(** The centre chosen by the loop body keeps the ring inside the image,
    whatever the two random offsets are. *)
Lemma place_circle_within (h w radius dx dy : Z) :
  0 <= radius -> 2 * radius <= w -> 2 * radius <= h ->
  within_bounds h w (fst (place_circle h w radius dx dy),
                     snd (place_circle h w radius dx dy), radius).
Proof.
  intros Hr Hw Hh. unfold place_circle, out_of_bounds.
  rewrite !Z.gtb_ltb.
  repeat match goal with
         | |- context [?a <? ?b] => destruct (Z.ltb_spec a b)
         end;
  cbn [orb fst snd within_bounds]; Z.div_mod_to_equations; lia.
Qed.

(** One iteration: always succeeds on an image, adds one ring at the
    placed centre and the circumference of that ring. *)
Lemma sample_circle_step (edges : mask) (h w radius : Z) (st : sampler_state) :
  1 <= h < 2 ^ 31 -> 1 <= w < 2 ^ 31 ->
  exists st' dx dy,
    sample_circle edges h w radius st = Ok st'
    /\ total_circumference_px st'
       = (total_circumference_px st + 2 * PI * IZR radius)%R
    /\ total_intercepts st <= total_intercepts st'
    /\ rings (visualization st')
       = rings (visualization st)
         ++ [(fst (place_circle h w radius dx dy),
              snd (place_circle h w radius dx dy), radius)].
Proof.
  intros Hh Hw. unfold sample_circle.
  destruct (jitter_bound w Hw) as (jx & -> & _).
  destruct (jitter_bound h Hh) as (jy & -> & _).
  cbn [bind].
  destruct (randint (- jx) jx (gen st)) as [dx g1].
  destruct (randint (- jy) jy g1) as [dy g2].
  destruct (place_circle h w radius dx dy) as [cx cy] eqn:Hpc.
  eexists. exists dx, dy. split; [reflexivity | ].
  cbn [total_circumference_px total_intercepts visualization].
  rewrite Hpc. cbn [fst snd].
  split; [reflexivity | ]. split; [lia | ].
  rewrite rings_app. cbn [rings]. now rewrite rings_markers.
Qed.

Lemma sample_loop_inv (edges : mask) (h w radius : Z) (n : nat) :
  1 <= h < 2 ^ 31 -> 1 <= w < 2 ^ 31 ->
  0 <= radius -> 2 * radius <= w -> 2 * radius <= h ->
  forall st,
  exists st',
    sample_loop edges h w radius n st = Ok st'
    /\ total_circumference_px st'
       = (total_circumference_px st + INR n * (2 * PI * IZR radius))%R
    /\ total_intercepts st <= total_intercepts st'
    /\ exists added,
         rings (visualization st') = rings (visualization st) ++ added
         /\ List.length added = n
         /\ Forall (fun c => snd c = radius /\ within_bounds h w c) added.
Proof.
  intros Hh Hw Hr Hrw Hrh.
  induction n as [ | n IH]; intro st.
  - exists st. cbn [sample_loop]. split; [reflexivity | ].
    split; [simpl; lra | ]. split; [lia | ].
    exists []. rewrite app_nil_r. repeat split; constructor.
  - destruct (sample_circle_step edges h w radius st Hh Hw)
      as (st1 & dx & dy & Hstep & Hc1 & Hi1 & Hv1).
    destruct (IH st1) as (st' & Hloop & Hc & Hi & added & Hv & Hlen & Hall).
    exists st'. cbn [sample_loop]. rewrite Hstep. cbn [bind].
    split; [exact Hloop | ].
    split; [rewrite Hc, Hc1, S_INR; lra | ].
    split; [lia | ].
    eexists (_ :: added). split; [ | split].
    + rewrite Hv, Hv1, <- app_assoc. reflexivity.
    + simpl. now rewrite Hlen.
    + constructor; [ | exact Hall]. split; [reflexivity | ].
      now apply place_circle_within.
Qed.

(** The sampler on any image: it returns, with five rings of the common
    radius inside the image and five circumferences accumulated. *)
Lemma sample_circles_spec (edges : mask) (g : rng) :
  exists radius st,
    sampling_radius (fst (mask_shape edges)) (snd (mask_shape edges)) = Ok radius
    /\ sample_circles edges g = Ok st
    /\ 0 <= radius
    /\ total_circumference_px st = (5 * (2 * PI * IZR radius))%R
    /\ 0 <= total_intercepts st
    /\ List.length (rings (visualization st)) = 5%nat
    /\ Forall (fun c => snd c = radius
                        /\ within_bounds (fst (mask_shape edges))
                                         (snd (mask_shape edges)) c)
              (rings (visualization st)).
Proof.
  destruct (mask_shape_range edges) as [Hh Hw].
  unfold sample_circles, sampling_radius.
  destruct (mask_shape edges) as [h w]. cbn [fst snd] in *.
  destruct (sampling_radius_bound (Z.min h w)) as (radius & Hrad & Hr0 & Hr2);
    [lia | ].
  exists radius.
  set (st0 := {| gen := g; total_intercepts := 0;
                 total_circumference_px := 0%R; visualization := [] |}).
  destruct (sample_loop_inv edges h w radius num_circles Hh Hw Hr0) with (st := st0)
    as (st & Hloop & Hc & Hi & added & Hv & Hlen & Hall); try lia.
  exists st. rewrite Hrad. cbn [bind]. fold st0.
  split; [reflexivity | ]. split; [exact Hloop | ]. split; [assumption | ].
  split.
  { rewrite Hc. unfold st0, num_circles. cbn [total_circumference_px]. simpl INR. lra. }
  split; [exact Hi | ].
  unfold st0 in Hv. simpl in Hv. rewrite Hv.
  split; assumption.
Qed.

End SamplerFacts.

(** ** The metric chain over the reals *)

Section MetricFacts.
Local Open Scope R_scope.

Lemma div_nonzero (x y : R) : y <> 0 -> PyFloat.div x y = Ok (x / y).
Proof. intros Hy. unfold PyFloat.div. destruct (Req_dec_T y 0); [contradiction | reflexivity]. Qed.


Lemma log10_pos (x : R) : 0 < x -> PyFloat.log10 x = Ok (Rlog10 x).
Proof. intros Hx. unfold PyFloat.log10. destruct (Rlt_dec 0 x); [reflexivity | contradiction]. Qed.

Lemma ln_10_pos : 0 < ln 10.
Proof. rewrite <- ln_1. apply ln_increasing; lra. Qed.


Lemma calculate_astm_pos (L : R) :
  0 < L -> calculate_astm L = Ok (- 6.643856 * Rlog10 (L / 1000) - 3.288).
Proof.
  intros HL. unfold calculate_astm.
  destruct (Rle_dec L 0) as [Hle | _]; [lra | ].
  rewrite log10_pos by lra. reflexivity.
Qed.

Lemma calculate_astm_nonpos (L : R) : L <= 0 -> calculate_astm L = Ok 0.
Proof.
  intros HL. unfold calculate_astm.
  destruct (Rle_dec L 0) as [_ | Hn]; [reflexivity | contradiction].
Qed.

Lemma pow_neg_half_pos (d : R) :
  0 < d -> PyFloat.pow_neg_half d = Ok (PyFloat.Float (Rpower d (- 0.5))).
Proof.
  intros Hd. unfold PyFloat.pow_neg_half.
  destruct (Rlt_dec 0 d); [reflexivity | contradiction].
Qed.

Lemma pow_neg_half_zero : PyFloat.pow_neg_half 0 = Raise ZeroDivisionError.
Proof.
  unfold PyFloat.pow_neg_half.
  destruct (Rlt_dec 0 0) as [H | _]; [lra | ].
  destruct (Req_dec_T 0 0); [reflexivity | contradiction].
Qed.

Lemma hall_petch_pos (s0 k d : R) :
  0 < d -> hall_petch s0 k d = Ok (PyFloat.Float (s0 + k * Rpower d (- 0.5))).
Proof. intros Hd. unfold hall_petch. now rewrite pow_neg_half_pos. Qed.

Lemma hall_petch_zero (s0 k : R) : hall_petch s0 k 0 = Ok (PyFloat.Float 0).
Proof. unfold hall_petch. now rewrite pow_neg_half_zero. Qed.

(** The power [d ** -0.5] is the reciprocal of the square root. *)
Lemma Rpower_neg_half (d : R) : 0 < d -> Rpower d (- 0.5) = / sqrt d.
Proof.
  intros Hd. replace (- 0.5) with (- / 2) by lra.
  rewrite Rpower_Ropp. now rewrite Rpower_sqrt.
Qed.


Lemma Rpower_neg_half_sqr (d : R) :
  0 < d -> 0 < Rpower d (- 0.5) /\ Rpower d (- 0.5) * Rpower d (- 0.5) = / d.
Proof.
  intros Hd. split.
  - unfold Rpower. apply exp_pos.
  - rewrite <- Rpower_plus. replace (- 0.5 + - 0.5) with (- (1)) by lra.
    rewrite Rpower_Ropp, Rpower_1 by assumption. reflexivity.
Qed.

(** 0.30097 < log10 2 < 0.30108, from 10^31 < 2^103 and 2^93 < 10^28. *)
Lemma log10_2_bounds : 31 / 103 < ln 2 / ln 10 < 28 / 93.
Proof.
  pose proof ln_10_pos as H10.
  assert (Hlo : INR 31 * ln 10 < INR 103 * ln 2).
  { rewrite <- !ln_pow by lra. apply ln_increasing.
    - apply pow_lt; lra.
    - rewrite !pow_IZR. apply IZR_lt. reflexivity. }
  assert (Hhi : INR 93 * ln 2 < INR 28 * ln 10).
  { rewrite <- !ln_pow by lra. apply ln_increasing.
    - apply pow_lt; lra.
    - rewrite !pow_IZR. apply IZR_lt. reflexivity. }
  rewrite !INR_IZR_INZ in Hlo, Hhi. simpl Z.of_nat in Hlo, Hhi.
  split.
  - apply Rmult_lt_reg_r with (ln 10); [assumption | ].
    unfold Rdiv at 2. rewrite Rmult_assoc, Rinv_l by lra. lra.
  - apply Rmult_lt_reg_r with (ln 10); [assumption | ].
    unfold Rdiv at 1. rewrite Rmult_assoc, Rinv_l by lra. lra.
Qed.

Lemma Rlog10_twentieth : Rlog10 0.05 = - (1 + ln 2 / ln 10).
Proof.
  pose proof ln_10_pos as H10. unfold Rlog10.
  replace 0.05 with (/ (2 * 10)) by lra.
  rewrite ln_Rinv by lra. rewrite ln_mult by lra. field. lra.
Qed.

End MetricFacts.

(** ** The material table and the report *)

Lemma dict_find_none (db : list (string * material)) (key : string) :
  dict_find db key = None <-> ~ In key (dict_keys db).
Proof.
  induction db as [ | [name m] db IH]; cbn [dict_find dict_keys map In fst].
  - tauto.
  - destruct (String.eqb_spec name key) as [-> | Hne].
    + split; [discriminate | tauto].
    + unfold dict_keys in IH. rewrite IH. tauto.
Qed.

Lemma dict_getitem_missing (db : list (string * material)) (key : string) :
  ~ In key (dict_keys db) -> dict_getitem db key = Raise (KeyError key).
Proof.
  intros H. apply dict_find_none in H. unfold dict_getitem. now rewrite H.
Qed.

Section ReportFacts.
Context {V : Vision}.
Local Open Scope R_scope.

(** The chain up to the table lookup never raises once the intercept
    count and the scale are nonzero. *)
Lemma compute_report_unknown (st : sampler_state) (scale : R) (name : string) :
  total_intercepts st <> 0%Z -> scale <> 0 ->
  ~ In name (dict_keys materials_db) ->
  compute_report st scale name = Raise (KeyError name).
Proof.
  intros Hn Hs Hk. unfold compute_report.
  rewrite div_nonzero by (now apply not_0_IZR). cbn [bind].
  rewrite div_nonzero by assumption. cbn [bind].
  now rewrite dict_getitem_missing.
Qed.

(** With a material of the table, a positive count and a positive scale
    the chain returns a report, whose fields are the formulas of the
    source. *)
Lemma compute_report_known (st : sampler_state) (scale : R) (name : string)
    (mat : material) :
  dict_find materials_db name = Some mat ->
  (0 < total_intercepts st)%Z -> 0 <= total_circumference_px st -> 0 < scale ->
  let avg := total_circumference_px st / IZR (total_intercepts st) / scale in
  exists g y,
    calculate_astm avg = Ok g
    /\ hall_petch (s0 mat) (k mat) (avg / 1000) = Ok (PyFloat.Float y)
    /\ compute_report st scale name
       = Ok {| material_name := name;
               intercepts_counted := total_intercepts st;
               avg_grain_intercept_um := avg;
               astm_grain_number := g;
               d_mm := avg / 1000;
               friction_stress := s0 mat;
               locking_parameter := k mat;
               yield_strength := y;
               overlay := visualization st |}.
Proof.
  intros Hf Hn Hc Hs avg.
  assert (Hn' : 0 < IZR (total_intercepts st)) by now apply IZR_lt.
  assert (Havg : 0 <= avg).
  { unfold avg. apply Rmult_le_pos; [apply Rmult_le_pos | ]; try assumption.
    - left. now apply Rinv_0_lt_compat.
    - left. now apply Rinv_0_lt_compat. }
  assert (Hg : exists g, calculate_astm avg = Ok g).
  { destruct (Rle_dec avg 0).
    - eexists. now apply calculate_astm_nonpos.
    - eexists. apply calculate_astm_pos. lra. }
  assert (Hy : exists y, hall_petch (s0 mat) (k mat) (avg / 1000) = Ok (PyFloat.Float y)).
  { destruct (Req_dec_T avg 0) as [H0 | H0].
    - rewrite H0. replace (0 / 1000) with 0 by lra. eexists. apply hall_petch_zero.
    - eexists. apply hall_petch_pos. lra. }
  destruct Hg as [g Hg]. destruct Hy as [y Hy].
  exists g, y. split; [exact Hg | ]. split; [exact Hy | ].
  unfold compute_report.
  rewrite div_nonzero by lra. cbn [bind].
  rewrite div_nonzero by lra. cbn [bind]. fold avg.
  unfold dict_getitem. rewrite Hf. cbn [bind].
  rewrite Hy. cbn [bind]. rewrite Hg. cbn [bind]. reflexivity.
Qed.

(** [analyze_grains] once an image is loaded and the scale is positive. *)
Lemma analyze_grains_sampled (self : app) (g : rng) (img : image)
    (st : sampler_state) :
  original_image self = Some img -> 0 < pixel_scale_var self ->
  sample_circles (combined_edges img) g = Ok st ->
  analyze_grains self g
  = if (total_intercepts st =? 0)%Z then NoBoundariesFound (combined_edges img)
    else match compute_report st (pixel_scale_var self) (material_var self) with
         | Raise e => Uncaught e
         | Ok r => Analysis r
         end.
Proof.
  intros Him Hs Hst. unfold analyze_grains. rewrite Him.
  destruct (Rle_dec (pixel_scale_var self) 0) as [Hle | _]; [lra | ].
  now rewrite Hst.
Qed.

(** Every report comes from a sampled image with a positive scale and a
    nonzero intercept count. *)
Lemma analysis_inv (self : app) (g : rng) (r : report) :
  analyze_grains self g = Analysis r ->
  exists img st,
    original_image self = Some img
    /\ 0 < pixel_scale_var self
    /\ sample_circles (combined_edges img) g = Ok st
    /\ total_intercepts st <> 0%Z
    /\ compute_report st (pixel_scale_var self) (material_var self) = Ok r.
Proof.
  unfold analyze_grains. intros H.
  destruct (original_image self) as [img | ]; [ | discriminate].
  destruct (Rle_dec (pixel_scale_var self) 0) as [ | Hs]; [discriminate | ].
  destruct (sample_circles (combined_edges img) g) as [st | e] eqn:Hst;
    [ | discriminate].
  destruct (total_intercepts st =? 0)%Z eqn:Hz; [discriminate | ].
  destruct (compute_report st (pixel_scale_var self) (material_var self))
    as [r' | e] eqn:Hr; [ | discriminate].
  exists img, st. injection H as ->.
  repeat split; try reflexivity; try assumption.
  - lra.
  - now apply Z.eqb_neq.
Qed.

End ReportFacts.

(** ** Counting intercepts and reading a report back *)

Section RunFacts.
Context {V : Vision}.

(** When every ring of an image crosses the same number of boundaries,
    the loop counts that number once per circle. *)
Lemma sample_loop_uniform (edges : mask) (h w radius : Z) (c : nat) (n : nat) :
  (forall cx cy, List.length (ring_contours edges cx cy radius) = c) ->
  forall st st',
    sample_loop edges h w radius n st = Ok st' ->
    total_intercepts st' = total_intercepts st + Z.of_nat n * Z.of_nat c.
Proof.
  intros Hc. induction n as [ | n IH]; intros st st' H.
  - cbn [sample_loop] in H. injection H as <-. lia.
  - cbn [sample_loop] in H.
    destruct (sample_circle edges h w radius st) as [st1 | e] eqn:H1;
      [ | discriminate].
    cbn [bind] in H. rewrite (IH _ _ H).
    unfold sample_circle in H1.
    destruct (Binary64.int_of_scaled w Binary64.lit_0_1) as [jx | ];
      [ | discriminate].
    cbn [bind] in H1.
    destruct (randint (- jx) jx (gen st)) as [dx g1].
    destruct (Binary64.int_of_scaled h Binary64.lit_0_1) as [jy | ];
      [ | discriminate].
    cbn [bind] in H1.
    destruct (randint (- jy) jy g1) as [dy g2].
    destruct (place_circle h w radius dx dy) as [cx cy].
    injection H1 as <-. cbn [total_intercepts]. rewrite Hc. lia.
Qed.

Lemma sample_circles_uniform (edges : mask) (g : rng) (c : nat)
    (st : sampler_state) :
  (forall cx cy r, List.length (ring_contours edges cx cy r) = c) ->
  sample_circles edges g = Ok st ->
  total_intercepts st = 5 * Z.of_nat c.
Proof.
  intros Hc. unfold sample_circles.
  destruct (mask_shape edges) as [h w].
  destruct (sampling_radius h w) as [radius | ]; [ | discriminate].
  cbn [bind]. intros H.
  rewrite (sample_loop_uniform edges h w radius c num_circles
             (fun cx cy => Hc cx cy radius) _ _ H).
  cbn [total_intercepts]. unfold num_circles. lia.
Qed.

(** The fields of a report are the values of the chain. *)
Lemma compute_report_inv (st : sampler_state) (scale : R) (name : string)
    (r : report) :
  compute_report st scale name = Ok r ->
  exists mat,
    dict_find materials_db name = Some mat
    /\ material_name r = name
    /\ intercepts_counted r = total_intercepts st
    /\ avg_grain_intercept_um r
       = (total_circumference_px st / IZR (total_intercepts st) / scale)%R
    /\ d_mm r = (avg_grain_intercept_um r / 1000)%R
    /\ friction_stress r = s0 mat /\ locking_parameter r = k mat
    /\ hall_petch (s0 mat) (k mat) (d_mm r) = Ok (PyFloat.Float (yield_strength r))
    /\ calculate_astm (avg_grain_intercept_um r) = Ok (astm_grain_number r)
    /\ overlay r = visualization st.
Proof.
  unfold compute_report, PyFloat.div. intros H.
  destruct (Req_dec_T (IZR (total_intercepts st)) 0); [discriminate | ].
  cbn [bind] in H.
  destruct (Req_dec_T scale 0); [discriminate | ].
  cbn [bind] in H. unfold dict_getitem in H.
  destruct (dict_find materials_db name) as [mat | ]; [ | discriminate].
  cbn [bind] in H.
  destruct (hall_petch (s0 mat) (k mat) _) as [[y | ] | ] eqn:Hy;
    cbn [bind] in H; try discriminate.
  - destruct (calculate_astm _) as [gn | ] eqn:Hg; cbn [bind] in H;
      [ | discriminate].
    injection H as <-. exists mat. cbn. repeat split; assumption.
  - destruct (calculate_astm _); cbn [bind] in H; discriminate.
Qed.

End RunFacts.

Lemma Int_part_IZR (z : Z) : Int_part (IZR z) = z.
Proof.
  unfold Int_part.
  rewrite <- (tech_up (IZR z) (z + 1)); [lia | | ]; rewrite plus_IZR; lra.
Qed.

Lemma round4_twenty : PyFloat.round4 20 = 20%R.
Proof.
  unfold PyFloat.round4, PyFloat.round_half_even.
  replace (20 * 10000)%R with (IZR 200000) by lra.
  rewrite Int_part_IZR.
  destruct (Rlt_dec (IZR 200000 - IZR 200000) (1 / 2)) as [_ | Hn]; [ | lra].
  lra.
Qed.

(** ** Main results *)

(** C1. A run on "Steel (Low Carbon)" whose mean lineal intercept is
    50 microns reports a grain diameter of 0.05 mm, sigma_0 = 70 and
    k = 23, the yield strength 70 + 23 * 0.05^-0.5, which lies between
    172.85 and 172.86 MPa, and the ASTM grain number
    -6.643856 * log10(0.05) - 3.288, which lies between 5.35 and 5.36. *)
Theorem steel_fifty_micron_report {V : Vision} (self : app) (g : rng)
    (r : report) :
  analyze_grains self g = Analysis r ->
  material_var self = "Steel (Low Carbon)"%string ->
  avg_grain_intercept_um r = 50%R ->
  (d_mm r = 0.05
   /\ friction_stress r = 70 /\ locking_parameter r = 23
   /\ yield_strength r = 70 + 23 * Rpower 0.05 (- 0.5)
   /\ 172.85 < yield_strength r < 172.86
   /\ astm_grain_number r = - 6.643856 * Rlog10 0.05 - 3.288
   /\ 5.35 < astm_grain_number r < 5.36)%R.
Proof.
  intros Hrun Hmat Havg.
  destruct (analysis_inv self g r Hrun) as (img & st & _ & _ & _ & _ & Hrep).
  destruct (compute_report_inv _ _ _ _ Hrep)
    as (mat & Hfind & _ & _ & _ & Hd & Hs0 & Hk & Hy & Hg & _).
  rewrite Hmat in Hfind. cbn in Hfind. injection Hfind as <-.
  cbn [s0 k] in *.
  assert (Hd' : d_mm r = 0.05%R) by (rewrite Hd, Havg; lra).
  rewrite Hd' in Hy. rewrite hall_petch_pos in Hy by lra.
  injection Hy as Hy.
  rewrite Havg in Hg. rewrite calculate_astm_pos in Hg by lra.
  injection Hg as Hg.
  replace (50 / 1000)%R with 0.05%R in Hg by lra.
  repeat split; try assumption; try (symmetry; assumption).
  - (* 172.85 < yield *)
    rewrite <- Hy.
    destruct (Rpower_neg_half_sqr 0.05) as [Hp Hsq]; [lra | ].
    replace (/ 0.05)%R with 20%R in Hsq by lra. nra.
  - rewrite <- Hy.
    destruct (Rpower_neg_half_sqr 0.05) as [Hp Hsq]; [lra | ].
    replace (/ 0.05)%R with 20%R in Hsq by lra. nra.
  - rewrite <- Hg, Rlog10_twentieth. pose proof log10_2_bounds. lra.
  - rewrite <- Hg, Rlog10_twentieth. pose proof log10_2_bounds. lra.
Qed.

(** C2. When the five sampling circles of a run count no intercept at
    all, [analyze_grains] ends in the "no boundaries found" failure and
    produces no report. *)
Theorem zero_intercepts_no_boundaries {V : Vision} (self : app) (g : rng)
    (img : image) (st : sampler_state) :
  original_image self = Some img ->
  (0 < pixel_scale_var self)%R ->
  sample_circles (combined_edges img) g = Ok st ->
  total_intercepts st = 0 ->
  analyze_grains self g = NoBoundariesFound (combined_edges img)
  /\ forall r, analyze_grains self g <> Analysis r.
Proof.
  intros Him Hs Hst Hz.
  rewrite (analyze_grains_sampled self g img st Him Hs Hst), Hz.
  cbn [Z.eqb]. split; [reflexivity | discriminate].
Qed.

(** C3. On every image each of the five sampling circles has the common
    radius and lies within the image: centre minus radius and centre plus
    radius are in [0, w] horizontally and in [0, h] vertically.  A
    jittered centre that keeps the circle inside is used as it is; one
    that does not is replaced by the image centre, at which the circle
    does lie inside, and the radius is the same in both cases. *)
Theorem sampling_circles_within_image {V : Vision} (edges : mask) (g : rng) :
  let h := fst (mask_shape edges) in
  let w := snd (mask_shape edges) in
  exists radius st,
    sampling_radius h w = Ok radius
    /\ sample_circles edges g = Ok st
    /\ List.length (rings (visualization st)) = 5%nat
    /\ (forall cx cy r, In (cx, cy, r) (rings (visualization st)) ->
          r = radius
          /\ 0 <= cx - r <= w /\ 0 <= cx + r <= w
          /\ 0 <= cy - r <= h /\ 0 <= cy + r <= h)
    /\ (forall dx dy,
          (within_bounds h w (w / 2 + dx, h / 2 + dy, radius) ->
             place_circle h w radius dx dy = (w / 2 + dx, h / 2 + dy))
          /\ (~ within_bounds h w (w / 2 + dx, h / 2 + dy, radius) ->
                place_circle h w radius dx dy = (w / 2, h / 2)))
    /\ within_bounds h w (w / 2, h / 2, radius).
Proof.
  intros h w.
  destruct (sample_circles_spec edges g)
    as (radius & st & Hrad & Hst & Hr0 & _ & _ & Hlen & Hall).
  fold h w in Hrad, Hall.
  exists radius, st. split; [exact Hrad | ]. split; [exact Hst | ].
  split; [exact Hlen | ].
  assert (Hcentre : within_bounds h w (w / 2, h / 2, radius)).
  { destruct (mask_shape_range edges) as [Hh Hw]. fold h in Hh. fold w in Hw.
    unfold sampling_radius in Hrad.
    destruct (sampling_radius_bound (Z.min h w)) as (r' & Hr' & _ & Hr2);
      [lia | ].
    rewrite Hr' in Hrad. injection Hrad as ->.
    cbn [within_bounds]. Z.div_mod_to_equations. lia. }
  split; [ | split; [ | exact Hcentre]].
  - intros cx cy r Hin. rewrite Forall_forall in Hall.
    destruct (Hall _ Hin) as [Hr Hb]. cbn [snd within_bounds] in Hr, Hb.
    subst r. lia.
  - intros dx dy. unfold place_circle, out_of_bounds. cbn [within_bounds].
    rewrite !Z.gtb_ltb.
    repeat match goal with
           | |- context [?a <? ?b] => destruct (Z.ltb_spec a b)
           end;
    cbn [orb]; split; intros; try reflexivity; lia.
Qed.


(** C5. For all constants sigma_0 and k the Hall-Petch step returns
    sigma_0 + k * d^(-0.5) for a grain diameter d > 0, the power being
    the reciprocal square root, and for d = 0 the zero division is caught
    and the yield strength is 0. *)
Theorem hall_petch_yield_strength (s0 k d : R) :
  (0 < d ->
   hall_petch s0 k d = Ok (PyFloat.Float (s0 + k * Rpower d (- 0.5)))
   /\ Rpower d (- 0.5) = / sqrt d
   /\ hall_petch s0 k 0 = Ok (PyFloat.Float 0))%R.
Proof.
  intros Hd. split; [now apply hall_petch_pos | ].
  split; [now apply Rpower_neg_half | apply hall_petch_zero].
Qed.




(** C9 as stated fails: on the blank frame the run with the unlisted
    material "Unobtainium" ends in the "no boundaries found" failure, not
    in a KeyError. *)
Lemma unknown_material_on_blank_frame :
  ~ In "Unobtainium"%string (dict_keys materials_db)
  /\ analyze_grains blank_unknown_run 0%nat = NoBoundariesFound blank_edges
  /\ analyze_grains blank_unknown_run 0%nat
     <> Uncaught (KeyError "Unobtainium").
Proof.
  assert (Hrun : analyze_grains blank_unknown_run 0%nat = NoBoundariesFound blank_edges).
  { destruct (sample_circles_spec blank_edges 0%nat)
      as (radius & st & _ & Hst & _).
    rewrite (analyze_grains_sampled blank_unknown_run 0%nat (tt : @image blank_frame) st);
      [ | reflexivity | cbn; lra | exact Hst].
    rewrite (sample_circles_uniform blank_edges 0%nat 0 st);
      [reflexivity | reflexivity | exact Hst]. }
  split.
  - apply dict_find_none. reflexivity.
  - split; [exact Hrun | ]. rewrite Hrun. discriminate.
Qed.

(** C9, amended.  For a material name that is not a key of the table no
    run produces a report, and a run with a loaded image, a positive scale
    and at least one intercept raises KeyError for that name. *)
Theorem unknown_material_key_error {V : Vision} (self : app) (g : rng) :
  ~ In (material_var self) (dict_keys materials_db) ->
  (forall r, analyze_grains self g <> Analysis r)
  /\ (forall img st,
        original_image self = Some img ->
        (0 < pixel_scale_var self)%R ->
        sample_circles (combined_edges img) g = Ok st ->
        total_intercepts st <> 0 ->
        analyze_grains self g = Uncaught (KeyError (material_var self))).
Proof.
  intros Hk. split.
  - intros r Hr.
    destruct (analysis_inv self g r Hr) as (img & st & _ & _ & _ & _ & Hrep).
    destruct (compute_report_inv _ _ _ _ Hrep) as (mat & Hfind & _).
    apply dict_find_none in Hk. congruence.
  - intros img st Him Hs Hst Hn.
    rewrite (analyze_grains_sampled self g img st Him Hs Hst).
    apply Z.eqb_neq in Hn. rewrite Hn.
    rewrite compute_report_unknown; [reflexivity | | lra | assumption].
    now apply Z.eqb_neq.
Qed.

(** C10. On every image the sampler returns; its radius is
    [int(min(h, w) * 0.35)], every iteration adds 2 * pi * radius to the
    running circumference whatever the state it starts from, the total is
    5 * 2 * pi * radius, and the mean lineal intercept of a report is that
    total divided by the intercept count and by the scale, so that two
    masks of one shape with equal counts give equal mean intercepts. *)
Theorem circumference_fixed_by_shape {V : Vision} (edges : mask) (g : rng) :
  let h := fst (mask_shape edges) in
  let w := snd (mask_shape edges) in
  exists radius st,
    Binary64.int_of_scaled (Z.min h w) Binary64.lit_0_35 = Ok radius
    /\ sample_circles edges g = Ok st
    /\ total_circumference_px st = (5 * (2 * PI * IZR radius))%R
    /\ (forall st0, exists st1,
          sample_circle edges h w radius st0 = Ok st1
          /\ total_circumference_px st1
             = (total_circumference_px st0 + 2 * PI * IZR radius)%R)
    /\ (forall scale name r,
          compute_report st scale name = Ok r ->
          avg_grain_intercept_um r
          = (5 * (2 * PI * IZR radius) / IZR (total_intercepts st) / scale)%R)
    /\ (forall edges' g' st' scale name r r',
          mask_shape edges' = mask_shape edges ->
          sample_circles edges' g' = Ok st' ->
          total_intercepts st' = total_intercepts st ->
          compute_report st scale name = Ok r ->
          compute_report st' scale name = Ok r' ->
          avg_grain_intercept_um r' = avg_grain_intercept_um r).
Proof.
  intros h w.
  destruct (sample_circles_spec edges g)
    as (radius & st & Hrad & Hst & _ & Hcirc & _).
  fold h w in Hrad. exists radius, st.
  split; [exact Hrad | ]. split; [exact Hst | ]. split; [exact Hcirc | ].
  destruct (mask_shape_range edges) as [Hh Hw]. fold h in Hh. fold w in Hw.
  split; [ | split].
  - intros st0.
    destruct (sample_circle_step edges h w radius st0 Hh Hw)
      as (st1 & dx & dy & Hstep & Hc & _).
    exists st1. split; assumption.
  - intros scale name r Hr.
    destruct (compute_report_inv _ _ _ _ Hr) as (mat & _ & _ & _ & Havg & _).
    now rewrite Havg, Hcirc.
  - intros edges' g' st' scale name r r' Hshape Hst' Hn Hr Hr'.
    destruct (sample_circles_spec edges' g')
      as (radius' & st'' & Hrad' & Hst'' & _ & Hcirc' & _).
    rewrite Hshape in Hrad'. fold h w in Hrad'.
    assert (radius' = radius) as -> by congruence.
    assert (st'' = st') as -> by congruence.
    destruct (compute_report_inv _ _ _ _ Hr) as (mat & _ & _ & _ & Havg & _).
    destruct (compute_report_inv _ _ _ _ Hr') as (mat' & _ & _ & _ & Havg' & _).
    now rewrite Havg, Havg', Hcirc, Hcirc', Hn.
Qed.

(** ** Runs of the definitions on the concrete frames *)

(** The gridded frame: radius 35 and 35 intercepts. *)
Lemma gridded_sample (g : nat) :
  exists st,
    sample_circles gridded_edges g = Ok st
    /\ total_intercepts st = 35
    /\ total_circumference_px st = (5 * (2 * PI * 35))%R.
Proof.
  destruct (sample_circles_spec gridded_edges g)
    as (radius & st & Hrad & Hst & _ & Hcirc & _).
  vm_compute in Hrad. injection Hrad as <-.
  exists st. split; [exact Hst | ]. split; [ | exact Hcirc].
  apply (sample_circles_uniform gridded_edges g 7 st); [reflexivity | exact Hst].
Qed.

Lemma blank_sample (g : nat) :
  exists st,
    sample_circles blank_edges g = Ok st /\ total_intercepts st = 0.
Proof.
  destruct (sample_circles_spec blank_edges g) as (radius & st & _ & Hst & _).
  exists st. split; [exact Hst | ].
  apply (sample_circles_uniform blank_edges g 0 st); [reflexivity | exact Hst].
Qed.

Lemma steel_in_table :
  dict_find materials_db "Steel (Low Carbon)"
  = Some {| s0 := 70; k := 23 |}.
Proof. reflexivity. Qed.

Lemma steel_fifty_micron_report_witness :
  exists r,
    analyze_grains gridded_steel_run 0%nat = Analysis r
    /\ material_var gridded_steel_run = "Steel (Low Carbon)"%string
    /\ avg_grain_intercept_um r = 50%R
    /\ (d_mm r = 0.05
        /\ friction_stress r = 70 /\ locking_parameter r = 23
        /\ yield_strength r = 70 + 23 * Rpower 0.05 (- 0.5)
        /\ 172.85 < yield_strength r < 172.86
        /\ astm_grain_number r = - 6.643856 * Rlog10 0.05 - 3.288
        /\ 5.35 < astm_grain_number r < 5.36)%R.
Proof.
  destruct (gridded_sample 0) as (st & Hst & Hn & Hc).
  pose proof PI_RGT_0 as Hpi.
  destruct (compute_report_known st (PI / 5)%R "Steel (Low Carbon)" _ steel_in_table)
    as (gn & y & _ & _ & Hrep);
    [rewrite Hn; lia | rewrite Hc; lra | lra | ].
  match type of Hrep with _ = Ok ?r0 => set (r := r0) in * end.
  assert (Hrun : analyze_grains gridded_steel_run 0%nat = Analysis r).
  { rewrite (analyze_grains_sampled gridded_steel_run 0%nat (tt : @image gridded_frame) st);
      [ | reflexivity | cbn; lra | exact Hst].
    rewrite Hn. cbn [Z.eqb]. cbn [pixel_scale_var material_var gridded_steel_run].
    now rewrite Hrep. }
  assert (Havg : avg_grain_intercept_um r = 50%R).
  { unfold r. cbn [avg_grain_intercept_um]. rewrite Hc, Hn. field. lra. }
  exists r. split; [exact Hrun | ]. split; [reflexivity | ]. split; [exact Havg | ].
  exact (steel_fifty_micron_report gridded_steel_run 0%nat r Hrun eq_refl Havg).
Defined.

Lemma zero_intercepts_no_boundaries_witness :
  analyze_grains blank_unknown_run 0%nat = NoBoundariesFound blank_edges
  /\ forall r, analyze_grains blank_unknown_run 0%nat <> Analysis r.
Proof.
  destruct (blank_sample 0) as (st & Hst & Hn).
  apply (zero_intercepts_no_boundaries blank_unknown_run 0%nat
           (tt : @image blank_frame) st).
  - reflexivity.
  - cbn. lra.
  - exact Hst.
  - exact Hn.
Defined.

Lemma hall_petch_yield_strength_witness :
  (0 < 0.05
   /\ hall_petch 70 23 0.05 = Ok (PyFloat.Float (70 + 23 * Rpower 0.05 (- 0.5)))
   /\ Rpower 0.05 (- 0.5) = / sqrt 0.05
   /\ hall_petch 70 23 0 = Ok (PyFloat.Float 0))%R.
Proof.
  split; [lra | apply (hall_petch_yield_strength 70 23 0.05); lra].
Defined.

Lemma canvas_distance_60_80 : dist_canvas_px (0, 0) (60, 80) = 100%R.
Proof.
  unfold dist_canvas_px. cbn [fst snd].
  replace (IZR ((60 - 0) ^ 2 + (80 - 0) ^ 2)) with (100 * 100)%R.
  - apply sqrt_square. lra.
  - change ((60 - 0) ^ 2 + (80 - 0) ^ 2) with 10000. lra.
Qed.




Lemma unknown_material_key_error_witness :
  ~ In (material_var gridded_unknown_run) (dict_keys materials_db)
  /\ (forall r, analyze_grains gridded_unknown_run 0%nat <> Analysis r)
  /\ analyze_grains gridded_unknown_run 0%nat
     = Uncaught (KeyError "Unobtainium").
Proof.
  assert (Hk : ~ In (material_var gridded_unknown_run) (dict_keys materials_db)).
  { apply dict_find_none. reflexivity. }
  destruct (unknown_material_key_error gridded_unknown_run 0%nat Hk) as [Hno Herr].
  split; [exact Hk | ]. split; [exact Hno | ].
  destruct (gridded_sample 0) as (st & Hst & Hn & _).
  apply (Herr (tt : @image gridded_frame) st).
  - reflexivity.
  - cbn. lra.
  - exact Hst.
  - rewrite Hn. lia.
Defined.


(** * Further properties *)

(** ** Binary64: the value of a rounded result *)

Section Binary64Enclosure.
Import Binary64.

Lemma shr_record_of_loc_m (m : Z) (l : location) :
  shr_m (shr_record_of_loc m l) = m.
Proof. destruct l as [ | [ | | ]]; reflexivity. Qed.

(** The first shift of the rounding: the mantissa is divided by 2^n. *)
Lemma shr_loc_m (M : positive) (E n : Z) (l : location) :
  0 <= n ->
  shr_m (fst (shr (shr_record_of_loc (Z.pos M) l) E n)) = Z.pos M / 2 ^ n
  /\ snd (shr (shr_record_of_loc (Z.pos M) l) E n) = E + n.
Proof.
  intros Hn. destruct n as [ | pn | pn]; try lia; cbn [shr fst snd].
  - rewrite shr_record_of_loc_m, Z.div_1_r. split; [reflexivity | lia].
  - rewrite shr_iter_m by (rewrite shr_record_of_loc_m; lia).
    rewrite shr_record_of_loc_m. split; reflexivity.
Qed.

(** Rounding a mantissa of at least 53 bits, whatever the sign and the
    location of the discarded part: the result is a normal number whose
    mantissa, brought back to the exponent of the input, is within one
    unit of the shift of the input mantissa. *)
Lemma round_aux_enclosed (s : bool) (M : positive) (E : Z) (l : location) :
  let D := Z.pos (digits2_pos M) in
  53 <= D -> -1074 <= D + E - 53 -> D + E - 53 < 971 ->
  exists m3 e3,
    binary_round_aux prec emax s (Z.pos M) E l = S754_finite s m3 e3
    /\ 2 ^ 52 <= Z.pos m3 < 2 ^ 53
    /\ E + (D - 53) <= e3 <= E + (D - 53) + 1
    /\ Z.pos M - 2 ^ (D - 53) < Z.pos m3 * 2 ^ (e3 - E) <= Z.pos M + 2 ^ (D - 53).
Proof.
  intros D HD Hlo Hhi.
  pose proof (digits2_bounds M) as HM. fold D in HM.
  set (n := D - 53) in *.
  assert (Hn : 0 <= n) by lia.
  assert (Hpow : 2 ^ (D - 1) = 2 ^ 52 * 2 ^ n /\ 2 ^ D = 2 ^ 53 * 2 ^ n).
  { split; rewrite <- Z.pow_add_r by lia; f_equal; lia. }
  destruct Hpow as [Hp1 Hp2].
  assert (Hn0 : 0 < 2 ^ n) by (apply Z.pow_pos_nonneg; lia).
  destruct (shr_loc_m M E n l Hn) as [Hm1 He1].
  set (sh := shr (shr_record_of_loc (Z.pos M) l) E n) in *.
  assert (Hs1 : shr_fexp prec emax (Z.pos M) E l = sh).
  { unfold shr_fexp. cbn [Zdigits2]. fold D.
    rewrite fexp_normal by lia.
    replace (D + E - 53 - E) with n by lia. reflexivity. }
  destruct sh as [mrs e1] eqn:Hsh. cbn [fst snd] in Hm1, He1. subst e1.
  assert (Hm1b : 2 ^ 52 <= shr_m mrs < 2 ^ 53).
  { rewrite Hm1. split.
    - apply Z.div_le_lower_bound; lia.
    - apply Z.div_lt_upper_bound; lia. }
  assert (Hm1c : shr_m mrs * 2 ^ n <= Z.pos M < (shr_m mrs + 1) * 2 ^ n).
  { rewrite Hm1. pose proof (Z.div_mod (Z.pos M) (2 ^ n)) as Hdm.
    pose proof (Z.mod_pos_bound (Z.pos M) (2 ^ n) Hn0). lia. }
  set (m2 := round_nearest_even (shr_m mrs) (loc_of_shr_record mrs)).
  pose proof (round_nearest_even_bounds (shr_m mrs) (loc_of_shr_record mrs)) as Hm2.
  fold m2 in Hm2.
  unfold binary_round_aux. rewrite Hs1. fold m2.
  destruct m2 as [ | q | q] eqn:Hq; try lia.
  destruct (Z_lt_le_dec (Z.pos q) (2 ^ 53)) as [Hlt | Hge].
  - assert (Hdq : Z.pos (digits2_pos q) = 53) by (apply digits2_unique; lia).
    assert (Hs2 : shr_fexp prec emax (Z.pos q) (E + n) loc_Exact
                  = ({| shr_m := Z.pos q; shr_r := false; shr_s := false |}, E + n)).
    { unfold shr_fexp. cbn [Zdigits2 shr_record_of_loc]. rewrite Hdq, fexp_normal by lia.
      replace (53 + (E + n) - 53 - (E + n)) with 0 by lia. reflexivity. }
    rewrite Hs2. cbn [shr_m].
    replace (E + n <=? emax - prec) with true
      by (symmetry; apply Z.leb_le; unfold emax, prec; lia).
    exists q, (E + n). split; [reflexivity | ]. split; [lia | ]. split; [lia | ].
    replace (E + n - E) with n by lia. nia.
  - assert (Hq53 : Z.pos q = 2 ^ 53) by lia.
    assert (Hdq : Z.pos (digits2_pos q) = 54).
    { apply digits2_unique. rewrite Hq53. simpl. lia. }
    assert (Hs2 : shr_fexp prec emax (Z.pos q) (E + n) loc_Exact
                  = ({| shr_m := 2 ^ 52; shr_r := false; shr_s := false |}, E + n + 1)).
    { unfold shr_fexp. cbn [Zdigits2 shr_record_of_loc]. rewrite Hdq, fexp_normal by lia.
      replace (54 + (E + n) - 53 - (E + n)) with 1 by lia.
      assert (q = 9007199254740992%positive) as -> by lia. reflexivity. }
    rewrite Hs2. cbn [shr_m].
    change (2 ^ 52) with (Z.pos 4503599627370496).
    replace (E + n + 1 <=? emax - prec) with true
      by (symmetry; apply Z.leb_le; unfold emax, prec; lia).
    exists 4503599627370496%positive, (E + n + 1). split; [reflexivity | ].
    split; [cbn; lia | ]. split; [lia | ].
    replace (E + n + 1 - E) with (n + 1) by lia.
    rewrite Z.pow_add_r by lia. change (2 ^ 1) with 2.
    change (Z.pos 4503599627370496) with (2 ^ 52).
    assert (2 ^ 53 = 2 ^ 52 * 2) by reflexivity. nia.
Qed.

End Binary64Enclosure.

Section Binary64Values.
Import Binary64.

Lemma pow2_IZR (k : Z) : 0 <= k -> IZR (2 ^ k) = powerRZ 2 k.
Proof.
  intros Hk. rewrite <- (Z2Nat.id k) by assumption.
  rewrite <- pow_IZR. now rewrite pow_powerRZ.
Qed.

Lemma pow2_pos (k : Z) : (0 < powerRZ 2 k)%R.
Proof. apply powerRZ_lt. lra. Qed.

Lemma pow2_add (a b : Z) : powerRZ 2 (a + b) = (powerRZ 2 a * powerRZ 2 b)%R.
Proof. apply powerRZ_add. lra. Qed.

Lemma normal_in_weaken (lo hi lo' hi' : Z) (x : spec_float) :
  lo' <= lo -> hi <= hi' -> normal_in lo hi x -> normal_in lo' hi' x.
Proof.
  intros H1 H2 (m & e & -> & Hm & He). exists m, e. repeat split; lia.
Qed.

Lemma normal_value_pos (lo hi : Z) (x : spec_float) :
  normal_in lo hi x -> (0 < float_value x)%R.
Proof.
  intros (m & e & -> & Hm & He). cbn [float_value].
  pose proof (pow2_pos e). assert (0 < IZR (Z.pos m))%R by (apply IZR_lt; lia).
  rewrite Rmult_1_l. now apply Rmult_lt_0_compat.
Qed.

(** From the integer enclosure of a rounded mantissa to the relative
    error of the value. *)
Lemma enclosed_value (M m3 : positive) (E e3 n : Z) :
  0 <= n -> E <= e3 ->
  2 ^ 52 * 2 ^ n <= Z.pos M ->
  Z.pos M - 2 ^ n < Z.pos m3 * 2 ^ (e3 - E) <= Z.pos M + 2 ^ n ->
  let X := (IZR (Z.pos M) * powerRZ 2 E)%R in
  (X * (1 - / 2 ^ 52) <= IZR (Z.pos m3) * powerRZ 2 e3 <= X * (1 + / 2 ^ 52))%R.
Proof.
  intros Hn He HM [Hlo Hhi] X.
  assert (Hv : (IZR (Z.pos m3) * powerRZ 2 e3
                = IZR (Z.pos m3 * 2 ^ (e3 - E)) * powerRZ 2 E)%R).
  { rewrite mult_IZR, pow2_IZR by lia.
    replace e3 with ((e3 - E) + E) at 1 by lia. rewrite pow2_add. ring. }
  rewrite Hv.
  pose proof (pow2_pos E) as HE.
  assert (H52 : (IZR (2 ^ 52) = 2 ^ 52)%R) by (rewrite pow_IZR; reflexivity).
  assert (Hn0 : (0 < IZR (2 ^ n))%R) by (apply IZR_lt, Z.pow_pos_nonneg; lia).
  apply IZR_le in HM. rewrite mult_IZR, H52 in HM.
  apply Z.lt_le_incl, IZR_le in Hlo. rewrite minus_IZR in Hlo.
  apply IZR_le in Hhi. rewrite plus_IZR in Hhi.
  assert (Hp : (0 < 2 ^ 52)%R) by (apply pow_lt; lra).
  assert (Hu : (IZR (2 ^ n) <= IZR (Z.pos M) * / 2 ^ 52)%R).
  { apply Rmult_le_reg_r with (2 ^ 52)%R; [assumption | ].
    rewrite Rmult_assoc, Rinv_l by lra. lra. }
  unfold X. split.
  - apply Rle_trans with ((IZR (Z.pos M) - IZR (2 ^ n)) * powerRZ 2 E)%R.
    + replace (IZR (Z.pos M) * powerRZ 2 E * (1 - / 2 ^ 52))%R
        with ((IZR (Z.pos M) - IZR (Z.pos M) * / 2 ^ 52) * powerRZ 2 E)%R by ring.
      apply Rmult_le_compat_r; lra.
    + apply Rmult_le_compat_r; lra.
  - apply Rle_trans with ((IZR (Z.pos M) + IZR (2 ^ n)) * powerRZ 2 E)%R.
    + apply Rmult_le_compat_r; lra.
    + replace (IZR (Z.pos M) * powerRZ 2 E * (1 + / 2 ^ 52))%R
        with ((IZR (Z.pos M) + IZR (Z.pos M) * / 2 ^ 52) * powerRZ 2 E)%R by ring.
      apply Rmult_le_compat_r; lra.
Qed.

(** An integer between 1 and 2^53 converts to the float of that value. *)
Lemma of_int_value (n : Z) :
  0 < n < 2 ^ 53 ->
  exists x, of_int n = Ok x /\ normal_in (-52) 0 x /\ float_value x = IZR n.
Proof.
  intros Hn. destruct n as [ | p | p]; try lia.
  destruct (of_int_small p) as (mx & ex & Hof & Hex & Hmx & Hmxb); [lia | ].
  pose proof (digits2_bounds p) as Hd.
  assert (Hd53 : 1 <= Z.pos (digits2_pos p) <= 53).
  { split; [lia | ].
    destruct (Z_le_gt_dec (Z.pos (digits2_pos p)) 53) as [ | Hgt]; [assumption | exfalso].
    assert (2 ^ 53 <= 2 ^ (Z.pos (digits2_pos p) - 1)) by (apply Z.pow_le_mono_r; lia).
    lia. }
  exists (S754_finite false mx ex). split; [exact Hof | ]. split.
  - exists mx, ex. repeat split; lia.
  - cbn [float_value]. rewrite Hmx, mult_IZR, pow2_IZR by lia.
    rewrite Rmult_1_l, Rmult_assoc, <- pow2_add.
    replace (- ex + ex) with 0 by lia. cbn [powerRZ]. ring.
Qed.

(** Multiplication of two positive normal numbers: relative error at most
    2^-52. *)
Lemma mul_value (a b c d : Z) (x y : spec_float) :
  normal_in a b x -> normal_in c d y ->
  -1074 <= a + c + 52 -> b + d + 54 <= 971 ->
  normal_in (a + c + 52) (b + d + 54) (mul x y)
  /\ (float_value x * float_value y * (1 - / 2 ^ 52)
      <= float_value (mul x y)
      <= float_value x * float_value y * (1 + / 2 ^ 52))%R.
Proof.
  intros (mx & ex & -> & Hmx & Hex) (my & ey & -> & Hmy & Hey) Hlo Hhi.
  unfold mul. cbn [SFmul xorb].
  set (M := (mx * my)%positive).
  assert (HM : Z.pos M = Z.pos mx * Z.pos my) by (unfold M; lia).
  assert (HMb : 2 ^ 104 <= Z.pos M < 2 ^ 106).
  { rewrite HM. change (2 ^ 104) with (2 ^ 52 * 2 ^ 52).
    change (2 ^ 106) with (2 ^ 53 * 2 ^ 53). nia. }
  pose proof (digits2_bounds M) as HD.
  set (D := Z.pos (digits2_pos M)) in *.
  assert (HD' : 105 <= D <= 106).
  { split.
    - destruct (Z_le_gt_dec 105 D) as [ | Hgt]; [assumption | exfalso].
      assert (2 ^ D <= 2 ^ 104) by (apply Z.pow_le_mono_r; lia). lia.
    - destruct (Z_le_gt_dec D 106) as [ | Hgt]; [assumption | exfalso].
      assert (2 ^ 106 <= 2 ^ (D - 1)) by (apply Z.pow_le_mono_r; lia). lia. }
  destruct (round_aux_enclosed false M (ex + ey) loc_Exact)
    as (m3 & e3 & Hr & Hm3 & He3 & Hval); fold D; try lia.
  rewrite Hr. fold D in He3, Hval. split.
  - exists m3, e3. repeat split; lia.
  - cbn [float_value]. rewrite !Rmult_1_l.
    assert (Hpow : 2 ^ 52 * 2 ^ (D - 53) <= Z.pos M).
    { rewrite <- Z.pow_add_r by lia. replace (52 + (D - 53)) with (D - 1) by lia. lia. }
    pose proof (enclosed_value M m3 (ex + ey) e3 (D - 53)) as Henc.
    cbv zeta in Henc.
    replace (IZR (Z.pos mx) * powerRZ 2 ex * (IZR (Z.pos my) * powerRZ 2 ey))%R
      with (IZR (Z.pos M) * powerRZ 2 (ex + ey))%R
      by (rewrite HM, mult_IZR, pow2_add; ring).
    apply Henc; lia.
Qed.

(** Division of two positive normal numbers: relative error at most
    2^-51. *)
Lemma div_value (a b c d : Z) (x y : spec_float) :
  normal_in a b x -> normal_in c d y ->
  -1074 <= a - d - 53 -> b - c - 51 <= 971 ->
  normal_in (a - d - 53) (b - c - 51) (div x y)
  /\ (float_value x / float_value y * (1 - / 2 ^ 51)
      <= float_value (div x y)
      <= float_value x / float_value y * (1 + / 2 ^ 52))%R.
Proof.
  intros (mx & ex & -> & Hmx & Hex) (my & ey & -> & Hmy & Hey) Hlo Hhi.
  assert (Hdx : Z.pos (digits2_pos mx) = 53) by (apply digits2_unique; cbn; lia).
  assert (Hdy : Z.pos (digits2_pos my) = 53) by (apply digits2_unique; cbn; lia).
  unfold div. cbn [SFdiv xorb]. unfold SFdiv_core_binary. cbn [Zdigits2].
  rewrite Hdx, Hdy.
  replace (53 + ex - (53 + ey)) with (ex - ey) by lia.
  change (fexp 53 1024) with (fexp prec emax).
  rewrite fexp_normal by lia.
  replace (Z.min (ex - ey - 53) (ex - ey)) with (ex - ey - 53) by lia.
  replace (ex - ey - (ex - ey - 53)) with 53 by lia.
  rewrite Z.shiftl_mul_pow2 by lia.
  set (N := Z.pos mx * 2 ^ 53).
  pose proof (Z.div_eucl_eq N (Z.pos my)) as Heq.
  pose proof (Z.mod_pos_bound N (Z.pos my)) as Hmod.
  unfold Z.modulo in Hmod.
  destruct (Z.div_eucl N (Z.pos my)) as [q r]. 
  specialize (Heq ltac:(lia)). specialize (Hmod ltac:(lia)).
  assert (Hq : 2 ^ 52 <= q < 2 ^ 54).
  { unfold N in Heq. change (2 ^ 54) with (2 * 2 ^ 53).
    change (2 ^ 53) with (2 * 2 ^ 52) in *. nia. }
  destruct q as [ | M | M]; try lia.
  pose proof (digits2_bounds M) as HD.
  set (D := Z.pos (digits2_pos M)) in *.
  assert (HD' : 53 <= D <= 54).
  { split.
    - destruct (Z_le_gt_dec 53 D) as [ | Hgt]; [assumption | exfalso].
      assert (2 ^ D <= 2 ^ 52) by (apply Z.pow_le_mono_r; lia). lia.
    - destruct (Z_le_gt_dec D 54) as [ | Hgt]; [assumption | exfalso].
      assert (2 ^ 54 <= 2 ^ (D - 1)) by (apply Z.pow_le_mono_r; lia). lia. }
  destruct (round_aux_enclosed false M (ex - ey - 53) (new_location (Z.pos my) r))
    as (m3 & e3 & Hr & Hm3 & He3 & Hval); fold D; try lia.
  change (binary_round_aux 53 1024) with (binary_round_aux prec emax).
  rewrite Hr. fold D in He3, Hval. split.
  - exists m3, e3. repeat split; lia.
  - cbn [float_value]. rewrite !Rmult_1_l.
    assert (Hpow : 2 ^ 52 * 2 ^ (D - 53) <= Z.pos M).
    { rewrite <- Z.pow_add_r by lia. replace (52 + (D - 53)) with (D - 1) by lia. lia. }
    pose proof (enclosed_value M m3 (ex - ey - 53) e3 (D - 53)
                  ltac:(lia) ltac:(lia) Hpow Hval) as Henc.
    cbv zeta in Henc.
    set (X := (IZR (Z.pos M) * powerRZ 2 (ex - ey - 53))%R) in *.
    set (Q := (IZR (Z.pos mx) * powerRZ 2 ex / (IZR (Z.pos my) * powerRZ 2 ey))%R).
    pose proof (pow2_pos ex) as Hpx. pose proof (pow2_pos ey) as Hpy.
    pose proof (pow2_pos (ex - ey - 53)) as Hpe.
    assert (Hmy' : (0 < IZR (Z.pos my))%R) by (apply IZR_lt; lia).
    assert (Hmx' : (0 < IZR (Z.pos mx))%R) by (apply IZR_lt; lia).
    assert (HQ : (Q = IZR N / IZR (Z.pos my) * powerRZ 2 (ex - ey - 53))%R).
    { unfold Q, N. rewrite mult_IZR, pow2_IZR by lia.
      replace (ex - ey - 53) with (ex + (- ey + - (53))) by lia.
      rewrite !pow2_add, !powerRZ_neg'.
      field; repeat split; apply Rgt_not_eq; try assumption; apply pow2_pos. }
    assert (HNq : (IZR (Z.pos M) <= IZR N / IZR (Z.pos my) < IZR (Z.pos M) + 1)%R).
    { assert (H1 : (IZR N = IZR (Z.pos my) * IZR (Z.pos M) + IZR r)%R)
        by (rewrite Heq, plus_IZR, mult_IZR; reflexivity).
      assert (H2 : (0 <= IZR r)%R) by (apply IZR_le; lia).
      assert (H3 : (IZR r < IZR (Z.pos my))%R) by (apply IZR_lt; lia).
      split.
      - apply Rmult_le_reg_r with (IZR (Z.pos my)); [assumption | ].
        unfold Rdiv. rewrite Rmult_assoc, Rinv_l by lra. lra.
      - apply Rmult_lt_reg_r with (IZR (Z.pos my)); [assumption | ].
        unfold Rdiv. rewrite Rmult_assoc, Rinv_l by lra. lra. }
    assert (HM52 : (2 ^ 52 <= IZR (Z.pos M))%R).
    { replace (2 ^ 52)%R with (IZR (2 ^ 52)) by (rewrite pow_IZR; reflexivity).
      apply IZR_le. lia. }
    assert (HXQ : (Q * (1 - / 2 ^ 52) <= X <= Q)%R).
    { rewrite HQ. unfold X. split.
      - rewrite Rmult_assoc, (Rmult_comm (powerRZ 2 _)), <- Rmult_assoc.
        apply Rmult_le_compat_r; [lra | ].
        assert (Hp : (0 < 2 ^ 52)%R) by (apply pow_lt; lra).
        assert (Hinv : (/ 2 ^ 52 * 2 ^ 52 = 1)%R) by (apply Rinv_l; lra).
        assert (Hi : (0 < / 2 ^ 52)%R) by now apply Rinv_0_lt_compat.
        nra.
      - apply Rmult_le_compat_r; lra. }
    assert (Hp : (0 < 2 ^ 52)%R) by (apply pow_lt; lra).
    assert (Hi : (0 < / 2 ^ 52)%R) by now apply Rinv_0_lt_compat.
    assert (Hi1 : (/ 2 ^ 52 < 1)%R).
    { rewrite <- Rinv_1. apply Rinv_lt_contravar; lra. }
    assert (H51 : (/ 2 ^ 51 = 2 * / 2 ^ 52)%R).
    { change (2 ^ 52)%R with (2 * 2 ^ 51)%R. field. }
    assert (HQ0 : (0 < Q)%R).
    { unfold Q. apply Rdiv_lt_0_compat; apply Rmult_lt_0_compat; assumption. }
    fold Q. rewrite H51. split; nra.
Qed.

End Binary64Values.

Section Binary64Order.
Import Binary64.

Lemma pow2_le (a b : Z) : a <= b -> (powerRZ 2 a <= powerRZ 2 b)%R.
Proof.
  intros Hab. replace b with (a + (b - a)) by lia. rewrite pow2_add.
  rewrite <- (Rmult_1_r (powerRZ 2 a)) at 1.
  apply Rmult_le_compat_l; [left; apply pow2_pos | ].
  rewrite <- pow2_IZR by lia. apply IZR_le.
  assert (0 < 2 ^ (b - a)) by (apply Z.pow_pos_nonneg; lia). lia.
Qed.

(** Canonical positive numbers are ordered by exponent, then mantissa. *)
Lemma normal_exponent_lt (m1 m2 : positive) (e1 e2 : Z) :
  2 ^ 52 <= Z.pos m1 < 2 ^ 53 -> 2 ^ 52 <= Z.pos m2 < 2 ^ 53 -> e1 < e2 ->
  (IZR (Z.pos m1) * powerRZ 2 e1 < IZR (Z.pos m2) * powerRZ 2 e2)%R.
Proof.
  intros H1 H2 He.
  pose proof (pow2_pos e1) as Hp1.
  pose proof (pow2_le (e1 + 1) e2 ltac:(lia)) as Hle.
  rewrite pow2_add in Hle.
  replace (powerRZ 2 1) with 2%R in Hle by (simpl; lra).
  assert (Hm1 : (IZR (Z.pos m1) < 2 * IZR (2 ^ 52))%R).
  { rewrite <- mult_IZR. apply IZR_lt. exact (proj2 H1). }
  assert (Hm2 : (IZR (2 ^ 52) <= IZR (Z.pos m2))%R) by (apply IZR_le; lia).
  assert (H52 : (0 < IZR (2 ^ 52))%R) by (apply IZR_lt; reflexivity).
  apply Rlt_le_trans with (2 * IZR (2 ^ 52) * powerRZ 2 e1)%R.
  - apply Rmult_lt_compat_r; assumption.
  - apply Rle_trans with (IZR (2 ^ 52) * powerRZ 2 e2)%R.
    + replace (2 * IZR (2 ^ 52) * powerRZ 2 e1)%R
        with (IZR (2 ^ 52) * (powerRZ 2 e1 * 2))%R by ring.
      apply Rmult_le_compat_l; lra.
    + apply Rmult_le_compat_r; [left; apply pow2_pos | assumption].
Qed.

Lemma ltb_value (a b c d : Z) (x y : spec_float) :
  normal_in a b x -> normal_in c d y ->
  if SFltb x y then (float_value x < float_value y)%R
  else (float_value y <= float_value x)%R.
Proof.
  intros (m1 & e1 & -> & Hm1 & _) (m2 & e2 & -> & Hm2 & _).
  unfold SFltb. cbn [SFcompare float_value]. rewrite !Rmult_1_l.
  destruct (Z.compare_spec e1 e2) as [-> | Hlt | Hgt].
  - fold (Pos.compare m1 m2).
    pose proof (pow2_pos e2) as Hp.
    destruct (Pos.compare_spec m1 m2) as [-> | Hl | Hg].
    + lra.
    + apply Rmult_lt_compat_r; [assumption | apply IZR_lt; lia].
    + left. apply Rmult_lt_compat_r; [assumption | apply IZR_lt; lia].
  - now apply normal_exponent_lt.
  - left. now apply normal_exponent_lt.
Qed.

(** [min] returns one of its arguments, below both. *)
Lemma min_value (a b : Z) (x y : spec_float) :
  normal_in a b x -> normal_in a b y ->
  normal_in a b (Display.min x y)
  /\ float_value (Display.min x y) = Rmin (float_value x) (float_value y).
Proof.
  intros Hx Hy. unfold Display.min.
  pose proof (ltb_value _ _ _ _ y x Hy Hx) as H.
  destruct (SFltb y x).
  - split; [assumption | ]. rewrite Rmin_right; lra.
  - split; [assumption | ]. rewrite Rmin_left; lra.
Qed.

(** [int(x)] of a positive normal number is the integer part. *)
Lemma to_int_value (a b : Z) (x : spec_float) :
  normal_in a b x ->
  exists z, to_int x = Ok z /\ (IZR z <= float_value x < IZR z + 1)%R.
Proof.
  intros (m & e & -> & Hm & _). cbn [to_int float_value]. rewrite Rmult_1_l.
  destruct e as [ | p | p].
  - eexists. split; [reflexivity | ]. cbn [powerRZ].
    rewrite Z.pow_0_r, Z.mul_1_r. lra.
  - eexists. split; [reflexivity | ].
    rewrite mult_IZR, pow2_IZR by lia. lra.
  - eexists. split; [reflexivity | ].
    assert (Hp : 0 < 2 ^ Z.pos p) by (apply Z.pow_pos_nonneg; lia).
    pose proof (Z.div_mod (Z.pos m) (2 ^ Z.pos p) ltac:(lia)) as Hdm.
    pose proof (Z.mod_pos_bound (Z.pos m) (2 ^ Z.pos p) Hp) as Hmod.
    set (q := Z.pos m / 2 ^ Z.pos p) in *.
    set (r := Z.pos m mod 2 ^ Z.pos p) in *.
    change (Z.neg p) with (- Z.pos p). rewrite powerRZ_neg'.
    rewrite <- pow2_IZR by lia.
    assert (HP : (0 < IZR (2 ^ Z.pos p))%R) by now apply IZR_lt.
    assert (Hm' : (IZR (Z.pos m) = IZR (2 ^ Z.pos p) * IZR q + IZR r)%R)
      by (rewrite Hdm at 1; rewrite plus_IZR, mult_IZR; reflexivity).
    assert (Hr0 : (0 <= IZR r)%R) by (apply IZR_le; lia).
    assert (Hr1 : (IZR r < IZR (2 ^ Z.pos p))%R) by (apply IZR_lt; lia).
    split.
    + apply Rmult_le_reg_r with (IZR (2 ^ Z.pos p)); [assumption | ].
      rewrite Rmult_assoc, Rinv_l by lra. lra.
    + apply Rmult_lt_reg_r with (IZR (2 ^ Z.pos p)); [assumption | ].
      rewrite Rmult_assoc, Rinv_l by lra. lra.
Qed.

End Binary64Order.

(** ** The geometry of [display_image] *)

Section DisplayFacts.
Import Binary64.

Lemma IZR_2_31 : IZR (2 ^ 31) = (2 ^ 31)%R.
Proof. rewrite pow_IZR. reflexivity. Qed.

(** Two roundings cannot carry a value below 2^31 across the next
    integer, nor a value of at least 1 + 2^-31 below 1. *)
Lemma two_roundings_upper (c P : R) :
  (0 < c < 2 ^ 31 -> P <= c * (1 + / 2 ^ 52) * (1 + / 2 ^ 52) -> P < c + 1)%R.
Proof.
  intros Hc HP.
  assert (H : ((1 + / 2 ^ 52) * (1 + / 2 ^ 52) <= 1 + / 2 ^ 50)%R) by lra.
  assert (H' : (c * / 2 ^ 50 < 1)%R) by lra.
  nra.
Qed.

Lemma two_roundings_lower (c P : R) :
  (0 < c < 2 ^ 31 -> c * (1 - / 2 ^ 51) * (1 - / 2 ^ 52) <= P -> c - 1 < P)%R.
Proof.
  intros Hc HP.
  assert (H : (1 - / 2 ^ 50 <= (1 - / 2 ^ 51) * (1 - / 2 ^ 52))%R) by lra.
  assert (H' : (c * / 2 ^ 50 < 1)%R) by lra.
  nra.
Qed.

(** The quotient of two array or canvas dimensions. *)
Lemma truediv_value (a b : Z) :
  1 <= a < 2 ^ 31 -> 1 <= b < 2 ^ 31 ->
  exists q,
    Display.truediv a b = Ok q
    /\ normal_in (-105) 1 q
    /\ (IZR a / IZR b * (1 - / 2 ^ 51) <= float_value q
        <= IZR a / IZR b * (1 + / 2 ^ 52))%R.
Proof.
  intros Ha Hb. unfold Display.truediv.
  destruct (Z.eqb_spec b 0) as [-> | _]; [lia | ].
  assert (H31 : 2 ^ 31 < 2 ^ 53) by (apply Z.pow_lt_mono_r; lia).
  destruct (of_int_value a) as (x & -> & Hx & Hvx); [lia | ].
  destruct (of_int_value b) as (y & -> & Hy & Hvy); [lia | ].
  cbn [bind].
  destruct (div_value (-52) 0 (-52) 0 x y Hx Hy) as [Hn Hv]; try lia.
  exists (div x y). split; [reflexivity | ]. split.
  - eapply normal_in_weaken; [ | | exact Hn]; lia.
  - rewrite Hvx, Hvy in Hv. exact Hv.
Qed.

Lemma canvas_guard (winfo fallback : Z) :
  winfo < 2 ^ 31 -> 10 <= fallback < 2 ^ 31 ->
  10 <= (if winfo <? 10 then fallback else winfo) < 2 ^ 31.
Proof. intros Hw Hf. destruct (Z.ltb_spec winfo 10); lia. Qed.

(** The ratio of [display_image]: a positive normal number within
    rounding of min(canvas_width / w, canvas_height / h). *)
Lemma scale_to_fit_value (winfo_width winfo_height h w : Z) :
  winfo_width < 2 ^ 31 -> winfo_height < 2 ^ 31 ->
  1 <= h < 2 ^ 31 -> 1 <= w < 2 ^ 31 ->
  let cw := if winfo_width <? 10 then 800 else winfo_width in
  let ch := if winfo_height <? 10 then 600 else winfo_height in
  exists ratio,
    Display.scale_to_fit winfo_width winfo_height h w = Ok ratio
    /\ normal_in (-105) 1 ratio
    /\ (Rmin (IZR cw / IZR w) (IZR ch / IZR h) * (1 - / 2 ^ 51)
        <= float_value ratio
        <= Rmin (IZR cw / IZR w) (IZR ch / IZR h) * (1 + / 2 ^ 52))%R
    /\ (float_value ratio <= IZR cw / IZR w * (1 + / 2 ^ 52))%R
    /\ (float_value ratio <= IZR ch / IZR h * (1 + / 2 ^ 52))%R
    /\ ((IZR cw / IZR w * (1 - / 2 ^ 51) <= float_value ratio)%R
        \/ (IZR ch / IZR h * (1 - / 2 ^ 51) <= float_value ratio)%R).
Proof.
  intros Hww Hwh Hh Hw cw ch.
  assert (Hcw : 10 <= cw < 2 ^ 31) by (apply canvas_guard; [assumption | cbn; lia]).
  assert (Hch : 10 <= ch < 2 ^ 31) by (apply canvas_guard; [assumption | cbn; lia]).
  unfold Display.scale_to_fit. fold cw ch.
  destruct (truediv_value cw w) as (rw & -> & Hnw & Hvw); try lia.
  destruct (truediv_value ch h) as (rh & -> & Hnh & Hvh); try lia.
  cbn [bind].
  destruct (min_value _ _ rw rh Hnw Hnh) as [Hn Hv].
  exists (Display.min rw rh). split; [reflexivity | ]. split; [exact Hn | ].
  rewrite Hv.
  set (Q1 := (IZR cw / IZR w)%R) in *. set (Q2 := (IZR ch / IZR h)%R) in *.
  assert (HQ1 : (0 < Q1)%R).
  { unfold Q1. apply Rdiv_lt_0_compat; apply IZR_lt; lia. }
  assert (HQ2 : (0 < Q2)%R).
  { unfold Q2. apply Rdiv_lt_0_compat; apply IZR_lt; lia. }
  unfold Rmin.
  destruct (Rle_dec (float_value rw) (float_value rh));
    destruct (Rle_dec Q1 Q2); repeat split; try lra; try (left; lra); try (right; lra).
  all: try nra.
Qed.

(** The target size of the resize: the truncated products of the array
    dimensions with the ratio. *)
Lemma display_geometry_value (winfo_width winfo_height h w : Z) :
  winfo_width < 2 ^ 31 -> winfo_height < 2 ^ 31 ->
  1 <= h < 2 ^ 31 -> 1 <= w < 2 ^ 31 ->
  let cw := if winfo_width <? 10 then 800 else winfo_width in
  let ch := if winfo_height <? 10 then 600 else winfo_height in
  exists ratio nw nh,
    Display.scale_to_fit winfo_width winfo_height h w = Ok ratio
    /\ Display.display_geometry winfo_width winfo_height h w
       = Ok {| Display.canvas_width := cw;
               Display.canvas_height := ch;
               Display.scale_ratio := ratio;
               Display.new_w := nw;
               Display.new_h := nh;
               Display.x_center := cw / 2;
               Display.y_center := ch / 2;
               Display.img_offset_x := cw / 2 - nw / 2;
               Display.img_offset_y := ch / 2 - nh / 2 |}
    /\ (IZR w * float_value ratio * (1 - / 2 ^ 52) - 1 < IZR nw
        <= IZR w * float_value ratio * (1 + / 2 ^ 52))%R
    /\ (IZR h * float_value ratio * (1 - / 2 ^ 52) - 1 < IZR nh
        <= IZR h * float_value ratio * (1 + / 2 ^ 52))%R.
Proof.
  intros Hww Hwh Hh Hw cw ch.
  destruct (scale_to_fit_value winfo_width winfo_height h w Hww Hwh Hh Hw)
    as (ratio & Hfit & Hn & _).
  assert (H31 : 2 ^ 31 < 2 ^ 53) by (apply Z.pow_lt_mono_r; lia).
  unfold Display.display_geometry. rewrite Hfit. cbn [bind]. fold cw ch.
  destruct (of_int_value w) as (fw & -> & Hfw & Hvw); [lia | ].
  destruct (of_int_value h) as (fh & -> & Hfh & Hvh); [lia | ].
  cbn [bind].
  destruct (mul_value _ _ _ _ fw ratio Hfw Hn) as [Hnw Hpw]; try lia.
  destruct (mul_value _ _ _ _ fh ratio Hfh Hn) as [Hnh Hph]; try lia.
  destruct (to_int_value _ _ _ Hnw) as (nw & -> & Htw).
  destruct (to_int_value _ _ _ Hnh) as (nh & -> & Hth).
  cbn [bind].
  exists ratio, nw, nh. split; [reflexivity | ]. split; [reflexivity | ].
  rewrite Hvw in Hpw. rewrite Hvh in Hph. split; lra.
Qed.

End DisplayFacts.

(** X1. The ratio stored by [display_image] is a positive binary64 number
    within rounding (2^-51 below, 2^-52 above) of
    min(canvas_width / w, canvas_height / h), the canvas size being taken
    as 800 x 600 when Tk reports less than 10; dividing a distance by it
    never raises. *)
Theorem display_ratio_fits_canvas (winfo_width winfo_height h w : Z) :
  winfo_width < 2 ^ 31 -> winfo_height < 2 ^ 31 ->
  1 <= h < 2 ^ 31 -> 1 <= w < 2 ^ 31 ->
  let cw := if winfo_width <? 10 then 800 else winfo_width in
  let ch := if winfo_height <? 10 then 600 else winfo_height in
  exists ratio,
    Display.scale_to_fit winfo_width winfo_height h w = Ok ratio
    /\ (0 < float_value ratio)%R
    /\ (Rmin (IZR cw / IZR w) (IZR ch / IZR h) * (1 - / 2 ^ 51)
        <= float_value ratio
        <= Rmin (IZR cw / IZR w) (IZR ch / IZR h) * (1 + / 2 ^ 52))%R
    /\ forall dist, PyFloat.div dist (float_value ratio)
                    = Ok (dist / float_value ratio)%R.
Proof.
  intros Hww Hwh Hh Hw cw ch.
  destruct (scale_to_fit_value winfo_width winfo_height h w Hww Hwh Hh Hw)
    as (ratio & Hfit & Hn & Hv & _).
  pose proof (normal_value_pos _ _ _ Hn) as Hpos.
  exists ratio. split; [exact Hfit | ]. split; [exact Hpos | ].
  split; [exact Hv | ].
  intros dist. apply div_nonzero. lra.
Qed.

(** X2. The size [display_image] resizes to never exceeds the canvas, it
    reaches the canvas size up to one pixel in at least one direction, and
    the stored offsets place the image inside the canvas. *)
Theorem display_image_fits_canvas (winfo_width winfo_height h w : Z) :
  winfo_width < 2 ^ 31 -> winfo_height < 2 ^ 31 ->
  1 <= h < 2 ^ 31 -> 1 <= w < 2 ^ 31 ->
  exists geo,
    Display.display_geometry winfo_width winfo_height h w = Ok geo
    /\ 0 <= Display.new_w geo <= Display.canvas_width geo
    /\ 0 <= Display.new_h geo <= Display.canvas_height geo
    /\ (Display.canvas_width geo - 1 <= Display.new_w geo
        \/ Display.canvas_height geo - 1 <= Display.new_h geo)
    /\ 0 <= Display.img_offset_x geo
    /\ Display.img_offset_x geo + Display.new_w geo <= Display.canvas_width geo
    /\ 0 <= Display.img_offset_y geo
    /\ Display.img_offset_y geo + Display.new_h geo <= Display.canvas_height geo.
Proof.
  intros Hww Hwh Hh Hw.
  set (cw := if winfo_width <? 10 then 800 else winfo_width).
  set (ch := if winfo_height <? 10 then 600 else winfo_height).
  assert (Hcw : 10 <= cw < 2 ^ 31) by (apply canvas_guard; [assumption | cbn; lia]).
  assert (Hch : 10 <= ch < 2 ^ 31) by (apply canvas_guard; [assumption | cbn; lia]).
  destruct (scale_to_fit_value winfo_width winfo_height h w Hww Hwh Hh Hw)
    as (ratio & Hfit & Hn & _ & Hu1 & Hu2 & Hlo).
  destruct (display_geometry_value winfo_width winfo_height h w Hww Hwh Hh Hw)
    as (ratio' & nw & nh & Hfit' & Hgeo & Hnw & Hnh).
  rewrite Hfit in Hfit'. injection Hfit' as <-.
  fold cw ch in Hu1, Hu2, Hlo, Hgeo.
  pose proof (normal_value_pos _ _ _ Hn) as Hpos.
  set (rho := float_value ratio) in *.
  assert (HW : (1 <= IZR w)%R) by (apply IZR_le; lia).
  assert (HH : (1 <= IZR h)%R) by (apply IZR_le; lia).
  assert (HCW : (0 < IZR cw < 2 ^ 31)%R).
  { rewrite <- IZR_2_31. split; apply IZR_lt; lia. }
  assert (HCH : (0 < IZR ch < 2 ^ 31)%R).
  { rewrite <- IZR_2_31. split; apply IZR_lt; lia. }
  assert (Hqw : (IZR w * (IZR cw / IZR w) = IZR cw)%R) by (field; lra).
  assert (Hqh : (IZR h * (IZR ch / IZR h) = IZR ch)%R) by (field; lra).
  (* upper bounds *)
  assert (Hnw_hi : nw <= cw).
  { apply Z.lt_succ_r, lt_IZR. unfold Z.succ. rewrite plus_IZR.
    apply Rle_lt_trans with (IZR w * rho * (1 + / 2 ^ 52))%R; [apply Hnw | ].
    apply two_roundings_upper; [assumption | ].
    apply Rmult_le_compat_r; [lra | ].
    replace (IZR cw * (1 + / 2 ^ 52))%R
      with (IZR w * (IZR cw / IZR w * (1 + / 2 ^ 52)))%R by (field; lra).
    apply Rmult_le_compat_l; lra. }
  assert (Hnh_hi : nh <= ch).
  { apply Z.lt_succ_r, lt_IZR. unfold Z.succ. rewrite plus_IZR.
    apply Rle_lt_trans with (IZR h * rho * (1 + / 2 ^ 52))%R; [apply Hnh | ].
    apply two_roundings_upper; [assumption | ].
    apply Rmult_le_compat_r; [lra | ].
    replace (IZR ch * (1 + / 2 ^ 52))%R
      with (IZR h * (IZR ch / IZR h * (1 + / 2 ^ 52)))%R by (field; lra).
    apply Rmult_le_compat_l; lra. }
  assert (Hnw_lo : 0 <= nw).
  { apply Z.lt_succ_r, lt_IZR. unfold Z.succ. rewrite plus_IZR.
    assert (0 <= IZR w * rho * (1 - / 2 ^ 52))%R; [ | lra].
    apply Rmult_le_pos; [apply Rmult_le_pos | ]; lra. }
  assert (Hnh_lo : 0 <= nh).
  { apply Z.lt_succ_r, lt_IZR. unfold Z.succ. rewrite plus_IZR.
    assert (0 <= IZR h * rho * (1 - / 2 ^ 52))%R; [ | lra].
    apply Rmult_le_pos; [apply Rmult_le_pos | ]; lra. }
  assert (Hfill : cw - 1 <= nw \/ ch - 1 <= nh).
  { destruct Hlo as [Hlo | Hlo]; [left | right].
    - assert (Hlt : (IZR cw - 1 - 1 < IZR nw)%R).
      { apply Rlt_trans with (IZR w * rho * (1 - / 2 ^ 52) - 1)%R; [ | apply Hnw].
        assert (IZR cw - 1 < IZR w * rho * (1 - / 2 ^ 52))%R; [ | lra].
        apply two_roundings_lower; [assumption | ].
        apply Rmult_le_compat_r; [lra | ].
        replace (IZR cw * (1 - / 2 ^ 51))%R
          with (IZR w * (IZR cw / IZR w * (1 - / 2 ^ 51)))%R by (field; lra).
        apply Rmult_le_compat_l; lra. }
      rewrite <- !minus_IZR in Hlt. apply lt_IZR in Hlt. lia.
    - assert (Hlt : (IZR ch - 1 - 1 < IZR nh)%R).
      { apply Rlt_trans with (IZR h * rho * (1 - / 2 ^ 52) - 1)%R; [ | apply Hnh].
        assert (IZR ch - 1 < IZR h * rho * (1 - / 2 ^ 52))%R; [ | lra].
        apply two_roundings_lower; [assumption | ].
        apply Rmult_le_compat_r; [lra | ].
        replace (IZR ch * (1 - / 2 ^ 51))%R
          with (IZR h * (IZR ch / IZR h * (1 - / 2 ^ 51)))%R by (field; lra).
        apply Rmult_le_compat_l; lra. }
      rewrite <- !minus_IZR in Hlt. apply lt_IZR in Hlt. lia. }
  eexists. split; [exact Hgeo | ].
  cbn [Display.new_w Display.new_h Display.canvas_width Display.canvas_height
       Display.img_offset_x Display.img_offset_y].
  repeat split; try assumption; Z.div_mod_to_equations; lia.
Qed.

Lemma ratio_above_one (a b : Z) :
  1 <= b < 2 ^ 31 -> b < a -> (1 + / 2 ^ 31 <= IZR a / IZR b)%R.
Proof.
  intros Hb Hab.
  assert (HB : (0 < IZR b)%R) by (apply IZR_lt; lia).
  assert (HB' : (IZR b <= 2 ^ 31)%R) by (rewrite <- IZR_2_31; apply IZR_le; lia).
  assert (HA : (IZR b + 1 <= IZR a)%R) by (rewrite <- plus_IZR; apply IZR_le; lia).
  assert (Hi : (/ 2 ^ 31 <= / IZR b)%R) by (apply Rinv_le_contravar; lra).
  apply Rle_trans with ((IZR b + 1) / IZR b)%R.
  - replace ((IZR b + 1) / IZR b)%R with (1 + / IZR b)%R by (field; lra). lra.
  - apply Rmult_le_compat_r; [left; now apply Rinv_0_lt_compat | assumption].
Qed.

Lemma ratio_below_one (a b : Z) :
  1 <= b < 2 ^ 31 -> a < b -> (IZR a / IZR b <= 1 - / 2 ^ 31)%R.
Proof.
  intros Hb Hab.
  assert (HB : (0 < IZR b)%R) by (apply IZR_lt; lia).
  assert (HB' : (IZR b <= 2 ^ 31)%R) by (rewrite <- IZR_2_31; apply IZR_le; lia).
  assert (HA : (IZR a <= IZR b - 1)%R) by (rewrite <- minus_IZR; apply IZR_le; lia).
  assert (Hi : (/ 2 ^ 31 <= / IZR b)%R) by (apply Rinv_le_contravar; lra).
  apply Rle_trans with ((IZR b - 1) / IZR b)%R.
  - apply Rmult_le_compat_r; [left; now apply Rinv_0_lt_compat | assumption].
  - replace ((IZR b - 1) / IZR b)%R with (1 - / IZR b)%R by (field; lra). lra.
Qed.

(** X3. The resize target is empty in one direction exactly for images
    more elongated than the canvas allows: the new width is at least 1
    when h < w * canvas_height and 0 when w * canvas_height < h, and the
    same for the new height with w, h and the canvas sides exchanged. *)
Theorem display_target_empty_when_elongated (winfo_width winfo_height h w : Z) :
  winfo_width < 2 ^ 31 -> winfo_height < 2 ^ 31 ->
  1 <= h < 2 ^ 31 -> 1 <= w < 2 ^ 31 ->
  exists geo,
    Display.display_geometry winfo_width winfo_height h w = Ok geo
    /\ (h < w * Display.canvas_height geo -> 1 <= Display.new_w geo)
    /\ (w * Display.canvas_height geo < h -> Display.new_w geo = 0)
    /\ (w < h * Display.canvas_width geo -> 1 <= Display.new_h geo)
    /\ (h * Display.canvas_width geo < w -> Display.new_h geo = 0).
Proof.
  intros Hww Hwh Hh Hw.
  set (cw := if winfo_width <? 10 then 800 else winfo_width).
  set (ch := if winfo_height <? 10 then 600 else winfo_height).
  assert (Hcw : 10 <= cw < 2 ^ 31) by (apply canvas_guard; [assumption | cbn; lia]).
  assert (Hch : 10 <= ch < 2 ^ 31) by (apply canvas_guard; [assumption | cbn; lia]).
  destruct (scale_to_fit_value winfo_width winfo_height h w Hww Hwh Hh Hw)
    as (ratio & Hfit & Hn & Hv & Hu1 & Hu2 & _).
  destruct (display_geometry_value winfo_width winfo_height h w Hww Hwh Hh Hw)
    as (ratio' & nw & nh & Hfit' & Hgeo & Hnw & Hnh).
  rewrite Hfit in Hfit'. injection Hfit' as <-.
  fold cw ch in Hv, Hu1, Hu2, Hgeo.
  pose proof (normal_value_pos _ _ _ Hn) as Hpos.
  set (rho := float_value ratio) in *.
  assert (HW : (1 <= IZR w)%R) by (apply IZR_le; lia).
  assert (HH : (1 <= IZR h)%R) by (apply IZR_le; lia).
  assert (HCW : (10 <= IZR cw)%R) by (apply IZR_le; lia).
  assert (HCH : (10 <= IZR ch)%R) by (apply IZR_le; lia).
  assert (Hc1 : (1 <= (1 + / 2 ^ 31) * (1 - / 2 ^ 51) * (1 - / 2 ^ 52))%R) by lra.
  assert (Hc2 : ((1 - / 2 ^ 31) * (1 + / 2 ^ 52) * (1 + / 2 ^ 52) < 1)%R) by lra.
  assert (Hqw : (IZR w * (IZR cw / IZR w) = IZR cw)%R) by (field; lra).
  assert (Hqh : (IZR h * (IZR ch / IZR h) = IZR ch)%R) by (field; lra).
  assert (Hxw : (IZR w * (IZR ch / IZR h) = IZR (w * ch) / IZR h)%R)
    by (rewrite mult_IZR; field; lra).
  assert (Hxh : (IZR h * (IZR cw / IZR w) = IZR (h * cw) / IZR w)%R)
    by (rewrite mult_IZR; field; lra).
  assert (Hnw0 : 0 <= nw).
  { apply Z.lt_succ_r, lt_IZR. unfold Z.succ. rewrite plus_IZR.
    assert (0 <= IZR w * rho * (1 - / 2 ^ 52))%R; [ | lra].
    apply Rmult_le_pos; [apply Rmult_le_pos | ]; lra. }
  assert (Hnh0 : 0 <= nh).
  { apply Z.lt_succ_r, lt_IZR. unfold Z.succ. rewrite plus_IZR.
    assert (0 <= IZR h * rho * (1 - / 2 ^ 52))%R; [ | lra].
    apply Rmult_le_pos; [apply Rmult_le_pos | ]; lra. }
  (* a product with the minimum that is at least 1 + 2^-31 survives *)
  assert (Hkeep : forall d n : Z,
             (1 <= IZR d)%R ->
             (1 + / 2 ^ 31 <= IZR d * Rmin (IZR cw / IZR w) (IZR ch / IZR h))%R ->
             (IZR d * rho * (1 - / 2 ^ 52) - 1 < IZR n)%R -> 1 <= n).
  { intros d n Hd Hmin Hlt.
    assert (Hdr : (IZR d * (Rmin (IZR cw / IZR w) (IZR ch / IZR h) * (1 - / 2 ^ 51))
                   <= IZR d * rho)%R) by (apply Rmult_le_compat_l; lra).
    assert (0 < IZR n)%R by nra.
    apply lt_IZR in H. lia. }
  assert (Hdrop : forall d n : Z,
             (1 <= IZR d)%R -> 0 <= n ->
             (exists q, (rho <= q * (1 + / 2 ^ 52))%R
                        /\ (0 <= q)%R /\ (IZR d * q <= 1 - / 2 ^ 31)%R) ->
             (IZR n <= IZR d * rho * (1 + / 2 ^ 52))%R -> n = 0).
  { intros d n Hd Hn0 (q & Hq & Hq0 & Hdq) Hle.
    assert (Hdr : (IZR d * rho <= IZR d * (q * (1 + / 2 ^ 52)))%R)
      by (apply Rmult_le_compat_l; lra).
    assert (IZR n < 1)%R by nra.
    apply lt_IZR in H. lia. }
  eexists. split; [exact Hgeo | ].
  cbn [Display.new_w Display.new_h Display.canvas_width Display.canvas_height].
  split; [ | split; [ | split]].
  - intros Hlt. apply (Hkeep w nw HW); [ | apply Hnw].
    pose proof (ratio_above_one (w * ch) h Hh Hlt) as Hr.
    unfold Rmin. destruct (Rle_dec _ _); rewrite ?Hqw, ?Hxw; lra.
  - intros Hlt. apply (Hdrop w nw HW Hnw0); [ | apply Hnw].
    exists (IZR ch / IZR h)%R. split; [exact Hu2 | ]. split.
    + apply Rmult_le_pos; [lra | left; apply Rinv_0_lt_compat; lra].
    + rewrite Hxw. now apply ratio_below_one.
  - intros Hlt. apply (Hkeep h nh HH); [ | apply Hnh].
    pose proof (ratio_above_one (h * cw) w Hw Hlt) as Hr.
    unfold Rmin. destruct (Rle_dec _ _); rewrite ?Hqh, ?Hxh; lra.
  - intros Hlt. apply (Hdrop h nh HH Hnh0); [ | apply Hnh].
    exists (IZR cw / IZR w)%R. split; [exact Hu1 | ]. split.
    + apply Rmult_le_pos; [lra | left; apply Rinv_0_lt_compat; lra].
    + rewrite Hxh. now apply ratio_below_one.
Qed.

(** ** Truncated products of the sampling loop *)

Section ScaledTruncation.
Import Binary64.

Lemma lit_0_35_value :
  normal_in (-54) (-54) lit_0_35
  /\ float_value lit_0_35 = (IZR 6305039478318694 / 2 ^ 54)%R.
Proof.
  split.
  - exists 6305039478318694%positive, (-54). repeat split; cbn; lia.
  - cbn [float_value lit_0_35]. change (-54) with (- (54)).
    rewrite powerRZ_neg', <- pow2_IZR by lia.
    replace (IZR (2 ^ 54)) with (2 ^ 54)%R by (rewrite pow_IZR; reflexivity).
    unfold Rdiv. ring.
Qed.

Lemma lit_0_1_value :
  normal_in (-56) (-56) lit_0_1
  /\ float_value lit_0_1 = (IZR 7205759403792794 / 2 ^ 56)%R.
Proof.
  split.
  - exists 7205759403792794%positive, (-56). repeat split; cbn; lia.
  - cbn [float_value lit_0_1]. change (-56) with (- (56)).
    rewrite powerRZ_neg', <- pow2_IZR by lia.
    replace (IZR (2 ^ 56)) with (2 ^ 56)%R by (rewrite pow_IZR; reflexivity).
    unfold Rdiv. ring.
Qed.

(** [int(n * c)] as the integer part of the rounded product. *)
Lemma int_of_scaled_value (n : Z) (c : spec_float) (lo hi : Z) :
  1 <= n < 2 ^ 31 -> normal_in lo hi c -> -1074 <= lo -> hi <= 900 ->
  exists z,
    int_of_scaled n c = Ok z
    /\ (IZR n * float_value c * (1 - / 2 ^ 52) - 1 < IZR z
        <= IZR n * float_value c * (1 + / 2 ^ 52))%R.
Proof.
  intros Hn Hc Hlo Hhi. unfold int_of_scaled.
  assert (H31 : 2 ^ 31 < 2 ^ 53) by (apply Z.pow_lt_mono_r; lia).
  destruct (of_int_value n) as (x & -> & Hx & Hvx); [lia | ].
  cbn [bind].
  destruct (mul_value _ _ _ _ x c Hx Hc) as [Hnm Hv]; try lia.
  destruct (to_int_value _ _ _ Hnm) as (z & -> & Hz).
  exists z. split; [reflexivity | ]. rewrite Hvx in Hv. lra.
Qed.

(** [int(m * 0.35)] against the exact floor of 35 m / 100. *)
Lemma scaled_0_35_floor (m : Z) :
  1 <= m < 2 ^ 31 ->
  exists r,
    int_of_scaled m lit_0_35 = Ok r
    /\ 35 * m <= 100 * (r + 1) /\ 100 * r <= 35 * m.
Proof.
  intros Hm. destruct lit_0_35_value as [Hn Hv].
  destruct (int_of_scaled_value m lit_0_35 _ _ Hm Hn) as (r & Hr & Hlo & Hhi); try lia.
  exists r. split; [exact Hr | ].
  rewrite Hv in Hlo, Hhi.
  assert (HM : (1 <= IZR m < 2 ^ 31)%R).
  { rewrite <- IZR_2_31. split; [apply IZR_le | apply IZR_lt]; lia. }
  split.
  - assert (H : (IZR (35 * m) - 1 < IZR (100 * (r + 1)))%R).
    { rewrite !mult_IZR, plus_IZR. lra. }
    rewrite <- minus_IZR in H. apply lt_IZR in H. lia.
  - assert (H : (IZR (100 * r) < IZR (35 * m) + 1)%R).
    { rewrite !mult_IZR. lra. }
    rewrite <- plus_IZR in H. apply lt_IZR in H. lia.
Qed.

(** [int(w * 0.1)] is at most the exact floor of w / 10. *)
Lemma scaled_0_1_floor (w : Z) :
  1 <= w < 2 ^ 31 ->
  exists j,
    int_of_scaled w lit_0_1 = Ok j
    /\ 0 <= j /\ w <= 10 * (j + 1) /\ 10 * j <= w.
Proof.
  intros Hw. destruct lit_0_1_value as [Hn Hv].
  destruct (int_of_scaled_value w lit_0_1 _ _ Hw Hn) as (j & Hj & Hlo & Hhi); try lia.
  exists j. split; [exact Hj | ].
  rewrite Hv in Hlo, Hhi.
  assert (HW : (1 <= IZR w < 2 ^ 31)%R).
  { rewrite <- IZR_2_31. split; [apply IZR_le | apply IZR_lt]; lia. }
  assert (H1 : w <= 10 * (j + 1)).
  { assert (H : (IZR w - 1 < IZR (10 * (j + 1)))%R).
    { rewrite !mult_IZR, plus_IZR. lra. }
    rewrite <- minus_IZR in H. apply lt_IZR in H. lia. }
  assert (H2 : 10 * j <= w).
  { assert (H : (IZR (10 * j) < IZR w + 1)%R).
    { rewrite !mult_IZR. lra. }
    rewrite <- plus_IZR in H. apply lt_IZR in H. lia. }
  repeat split; try assumption.
  apply Z.lt_succ_r, lt_IZR. unfold Z.succ. rewrite plus_IZR.
  assert (0 <= IZR w * (IZR 7205759403792794 / 2 ^ 56) * (1 - / 2 ^ 52))%R; [ | lra].
  apply Rmult_le_pos; [apply Rmult_le_pos | ]; lra.
Qed.

End ScaledTruncation.

(** X4. The sampling radius [int(min_dim * 0.35)] is the floor of
    0.35 * min_dim, except that for a multiple of 20, where the exact
    product is an integer, the binary64 product may fall just below it
    and the radius is then one less (62 for 180).  It is 0 exactly for
    min_dim <= 2. *)
Theorem sampling_radius_is_floor (h w : Z) :
  1 <= h < 2 ^ 31 -> 1 <= w < 2 ^ 31 ->
  let min_dim := Z.min h w in
  exists radius,
    sampling_radius h w = Ok radius
    /\ 35 * min_dim / 100 - 1 <= radius <= 35 * min_dim / 100
    /\ (min_dim mod 20 <> 0 -> radius = 35 * min_dim / 100)
    /\ (radius = 0 <-> min_dim <= 2).
Proof.
  intros Hh Hw min_dim.
  destruct (scaled_0_35_floor min_dim) as (r & Hr & Hlo & Hhi); [unfold min_dim; lia | ].
  exists r. split; [exact Hr | ].
  repeat split; try intros; Z.div_mod_to_equations; lia.
Qed.

Lemma sampling_radius_is_floor_witness :
  1 <= 180 < 2 ^ 31 /\ 1 <= 240 < 2 ^ 31
  /\ exists radius,
       sampling_radius 180 240 = Ok radius
       /\ 35 * Z.min 180 240 / 100 - 1 <= radius <= 35 * Z.min 180 240 / 100
       /\ (Z.min 180 240 mod 20 <> 0 -> radius = 35 * Z.min 180 240 / 100)
       /\ (radius = 0 <-> Z.min 180 240 <= 2).
Proof.
  assert (H1 : 1 <= 180 < 2 ^ 31) by (cbn; lia).
  assert (H2 : 1 <= 240 < 2 ^ 31) by (cbn; lia).
  split; [exact H1 | ]. split; [exact H2 | ].
  exact (sampling_radius_is_floor 180 240 H1 H2).
Defined.

(** X5. When [random.randint] keeps to its bounds, the recentring branch
    of the loop is never taken: every iteration samples at the jittered
    centre (w // 2 + dx, h // 2 + dy) with |dx| <= int(w * 0.1) and
    |dy| <= int(h * 0.1), and that circle lies inside the image. *)
Theorem jittered_centre_is_kept {V : Vision} (edges : mask) :
  (forall a b g, a <= b -> a <= fst (randint a b g) <= b) ->
  let h := fst (mask_shape edges) in
  let w := snd (mask_shape edges) in
  exists radius jx jy,
    sampling_radius h w = Ok radius
    /\ Binary64.int_of_scaled w Binary64.lit_0_1 = Ok jx
    /\ Binary64.int_of_scaled h Binary64.lit_0_1 = Ok jy
    /\ (forall dx dy, - jx <= dx <= jx -> - jy <= dy <= jy ->
          out_of_bounds (w / 2 + dx) (h / 2 + dy) radius h w = false)
    /\ (forall st, exists st' dx dy,
          sample_circle edges h w radius st = Ok st'
          /\ - jx <= dx <= jx /\ - jy <= dy <= jy
          /\ rings (visualization st')
             = rings (visualization st) ++ [(w / 2 + dx, h / 2 + dy, radius)]).
Proof.
  intros Hrand h w.
  destruct (mask_shape_range edges) as [Hh Hw]. fold h in Hh. fold w in Hw.
  destruct (scaled_0_35_floor (Z.min h w)) as (r & Hr & Hrlo & Hrhi); [lia | ].
  destruct (scaled_0_1_floor w Hw) as (jx & Hjx & Hjx0 & _ & Hjx1).
  destruct (scaled_0_1_floor h Hh) as (jy & Hjy & Hjy0 & _ & Hjy1).
  assert (Hr0 : 0 <= r) by lia.
  exists r, jx, jy. split; [exact Hr | ]. split; [exact Hjx | ]. split; [exact Hjy | ].
  assert (Hin : forall dx dy, - jx <= dx <= jx -> - jy <= dy <= jy ->
             out_of_bounds (w / 2 + dx) (h / 2 + dy) r h w = false).
  { intros dx dy Hdx Hdy. unfold out_of_bounds. rewrite !Z.gtb_ltb.
    repeat match goal with
           | |- context [?a <? ?b] => destruct (Z.ltb_spec a b)
           end;
    cbn [orb]; try reflexivity; exfalso; Z.div_mod_to_equations; lia. }
  split; [exact Hin | ].
  intros st. unfold sample_circle. rewrite Hjx, Hjy. cbn [bind].
  pose proof (Hrand (- jx) jx (gen st) ltac:(lia)) as Hdx.
  destruct (randint (- jx) jx (gen st)) as [dx g1]. cbn [fst] in Hdx.
  pose proof (Hrand (- jy) jy g1 ltac:(lia)) as Hdy.
  destruct (randint (- jy) jy g1) as [dy g2]. cbn [fst] in Hdy.
  unfold place_circle. rewrite (Hin dx dy Hdx Hdy).
  eexists. exists dx, dy. split; [reflexivity | ].
  split; [exact Hdx | ]. split; [exact Hdy | ].
  cbn [visualization]. rewrite rings_app. cbn [rings]. now rewrite rings_markers.
Qed.

Lemma blank_frame_randint_in_range (a b : Z) (g : nat) :
  a <= b -> a <= fst (@randint blank_frame a b g) <= b.
Proof.
  intros Hab. cbn [randint blank_frame fst].
  pose proof (Z.mod_pos_bound (Z.of_nat g * 7919) (b - a + 1) ltac:(lia)). lia.
Qed.

Lemma jittered_centre_is_kept_witness :
  (forall a b g, a <= b -> a <= fst (@randint blank_frame a b g) <= b)
  /\ forall st, exists st' dx dy,
       sample_circle blank_edges 100 100 35 st = Ok st'
       /\ - 10 <= dx <= 10 /\ - 10 <= dy <= 10
       /\ rings (visualization st')
          = rings (visualization st) ++ [(100 / 2 + dx, 100 / 2 + dy, 35)].
Proof.
  split; [exact blank_frame_randint_in_range | ].
  destruct (jittered_centre_is_kept blank_edges blank_frame_randint_in_range)
    as (radius & jx & jy & Hr & Hjx & Hjy & _ & Hstep).
  vm_compute in Hr. injection Hr as <-.
  vm_compute in Hjx. injection Hjx as <-.
  vm_compute in Hjy. injection Hjy as <-.
  exact Hstep.
Defined.

(** ** Exceptions, reports and overlays of [analyze_grains] *)


Lemma dots_app (l1 l2 : list shape) : dots (l1 ++ l2) = dots l1 ++ dots l2.
Proof.
  induction l1 as [ | [cx cy r | x y] l1 IH]; simpl; [reflexivity | | ];
    now rewrite IH.
Qed.

Lemma dots_markers (l : list (Z * Z * Z * Z)) :
  List.length (dots (map marker l)) = List.length l.
Proof.
  induction l as [ | [[[x y] w_c] h_c] l IH]; simpl; [reflexivity | now rewrite IH].
Qed.

Section OverlayFacts.
Context {V : Vision}.

(** An iteration draws as many markers as it counts intercepts. *)
Lemma sample_circle_dots (edges : mask) (h w radius : Z) (st st' : sampler_state) :
  sample_circle edges h w radius st = Ok st' ->
  Z.of_nat (List.length (dots (visualization st'))) - total_intercepts st'
  = Z.of_nat (List.length (dots (visualization st))) - total_intercepts st.
Proof.
  unfold sample_circle. intros H.
  destruct (Binary64.int_of_scaled w Binary64.lit_0_1) as [jx | ]; [ | discriminate].
  cbn [bind] in H.
  destruct (randint (- jx) jx (gen st)) as [dx g1].
  destruct (Binary64.int_of_scaled h Binary64.lit_0_1) as [jy | ]; [ | discriminate].
  cbn [bind] in H.
  destruct (randint (- jy) jy g1) as [dy g2].
  destruct (place_circle h w radius dx dy) as [cx cy].
  injection H as <-. cbn [visualization total_intercepts].
  rewrite dots_app. cbn [dots]. rewrite length_app, dots_markers. lia.
Qed.

Lemma sample_loop_dots (edges : mask) (h w radius : Z) (n : nat) :
  forall st st',
    sample_loop edges h w radius n st = Ok st' ->
    Z.of_nat (List.length (dots (visualization st'))) - total_intercepts st'
    = Z.of_nat (List.length (dots (visualization st))) - total_intercepts st.
Proof.
  induction n as [ | n IH]; intros st st' H; cbn [sample_loop] in H.
  - now injection H as <-.
  - destruct (sample_circle edges h w radius st) as [st1 | ] eqn:H1; [ | discriminate].
    cbn [bind] in H. rewrite (IH _ _ H). now apply sample_circle_dots in H1.
Qed.

Lemma sample_circles_dots (edges : mask) (g : rng) (st : sampler_state) :
  sample_circles edges g = Ok st ->
  Z.of_nat (List.length (dots (visualization st))) = total_intercepts st.
Proof.
  unfold sample_circles. destruct (mask_shape edges) as [h w].
  destruct (sampling_radius h w) as [radius | ]; [ | discriminate].
  cbn [bind]. intros H. apply sample_loop_dots in H. cbn in H. lia.
Qed.

End OverlayFacts.

(** The report is computed unless the material is missing from the
    table. *)
Lemma compute_report_raises {V : Vision} (st : sampler_state) (scale : R) (name : string)
    (e : exn) :
  0 < total_intercepts st -> (0 <= total_circumference_px st)%R ->
  (0 < scale)%R ->
  compute_report st scale name = Raise e ->
  e = KeyError name /\ ~ In name (dict_keys materials_db).
Proof.
  intros Hn Hc Hs.
  destruct (dict_find materials_db name) as [mat | ] eqn:Hfind.
  - destruct (compute_report_known st scale name mat Hfind Hn Hc Hs)
      as (gn & y & _ & _ & ->).
    discriminate.
  - apply dict_find_none in Hfind.
    rewrite compute_report_unknown by (try assumption; try lia; lra).
    intros H. injection H as <-. split; [reflexivity | assumption].
Qed.

(** With a material of the table every run ends in a message or a
    report. *)
Lemma listed_material_is_reported {V : Vision} (self : app) (g : rng) :
  In (material_var self) (dict_keys materials_db) ->
  forall e, analyze_grains self g <> Uncaught e.
Proof.
  intros Hin e. unfold analyze_grains.
  destruct (original_image self) as [img | ]; [ | discriminate].
  destruct (Rle_dec (pixel_scale_var self) 0) as [ | Hs]; [discriminate | ].
  destruct (sample_circles_spec (combined_edges img) g)
    as (radius & st & _ & Hst & Hr0 & Hcirc & Hn0 & _).
  rewrite Hst. destruct (Z.eqb_spec (total_intercepts st) 0) as [ | Hn]; [discriminate | ].
  destruct (compute_report st (pixel_scale_var self) (material_var self))
    as [r | e'] eqn:Hrep; [discriminate | ].
  apply compute_report_raises in Hrep; [ | lia | | lra].
  - destruct Hrep as [_ Hout]. contradiction.
  - rewrite Hcirc. pose proof PI_RGT_0. apply IZR_le in Hr0. nra.
Qed.

(** X6. The sampling and metric stages of [analyze_grains] raise nothing
    of their own: the only exception that leaves them is the KeyError of
    a material name that is missing from the table, so no
    ZeroDivisionError, ValueError, OverflowError or TypeError escapes. *)
Theorem only_key_error_escapes {V : Vision} (self : app) (g : rng) (e : exn) :
  analyze_grains self g = Uncaught e ->
  e = KeyError (material_var self)
  /\ ~ In (material_var self) (dict_keys materials_db).
Proof.
  unfold analyze_grains.
  destruct (original_image self) as [img | ]; [ | discriminate].
  destruct (Rle_dec (pixel_scale_var self) 0) as [ | Hs]; [discriminate | ].
  destruct (sample_circles_spec (combined_edges img) g)
    as (radius & st & _ & Hst & Hr0 & Hcirc & Hn0 & _).
  rewrite Hst. destruct (Z.eqb_spec (total_intercepts st) 0) as [ | Hn]; [discriminate | ].
  destruct (compute_report st (pixel_scale_var self) (material_var self))
    as [r | e'] eqn:Hrep; [discriminate | ].
  intros H. injection H as <-.
  apply (compute_report_raises st (pixel_scale_var self)); [lia | | lra | exact Hrep].
  rewrite Hcirc. pose proof PI_RGT_0. apply IZR_le in Hr0. nra.
Qed.

Lemma only_key_error_escapes_witness :
  analyze_grains gridded_unknown_run 0%nat = Uncaught (KeyError "Unobtainium")
  /\ KeyError "Unobtainium" = KeyError (material_var gridded_unknown_run)
  /\ ~ In (material_var gridded_unknown_run) (dict_keys materials_db).
Proof.
  assert (Hrun : analyze_grains gridded_unknown_run 0%nat
                 = Uncaught (KeyError "Unobtainium")).
  { destruct (gridded_sample 0) as (st & Hst & Hn & _).
    rewrite (analyze_grains_sampled gridded_unknown_run 0%nat
               (tt : @image gridded_frame) st);
      [ | reflexivity | cbn; lra | exact Hst].
    rewrite Hn. cbn [Z.eqb].
    rewrite compute_report_unknown; [reflexivity | rewrite Hn; lia | cbn; lra | ].
    apply dict_find_none. reflexivity. }
  split; [exact Hrun | ].
  exact (only_key_error_escapes gridded_unknown_run 0%nat _ Hrun).
Defined.


(** X8. The overlay of a report shows what was counted: five sampling
    rings and one marker for each intercept. *)
Theorem overlay_matches_count {V : Vision} (self : app) (g : rng) (r : report) :
  analyze_grains self g = Analysis r ->
  List.length (rings (overlay r)) = 5%nat
  /\ Z.of_nat (List.length (dots (overlay r))) = intercepts_counted r.
Proof.
  intros Hrun.
  destruct (analysis_inv self g r Hrun) as (img & st & _ & _ & Hst & _ & Hrep).
  destruct (compute_report_inv _ _ _ _ Hrep)
    as (mat & _ & _ & Hcnt & _ & _ & _ & _ & _ & _ & Hov).
  rewrite Hov, Hcnt. split.
  - destruct (sample_circles_spec (combined_edges img) g)
      as (radius & st' & _ & Hst' & _ & _ & _ & Hlen & _).
    rewrite Hst in Hst'. injection Hst' as <-. exact Hlen.
  - exact (sample_circles_dots (combined_edges img) g st Hst).
Qed.

(** ** The formulas and the calibrator *)

Section FormulaFacts.
Local Open Scope R_scope.


Lemma Rpower_neg_half_quarter (d : R) :
  0 < d -> Rpower (d / 4) (- 0.5) = 2 * Rpower d (- 0.5).
Proof.
  intros Hd.
  destruct (Rpower_neg_half_sqr d Hd) as [Hp Hsq].
  destruct (Rpower_neg_half_sqr (d / 4)) as [Hq Hsq4]; [lra | ].
  replace (/ (d / 4)) with (4 * / d) in Hsq4 by (field; lra).
  set (a := Rpower (d / 4) (- 0.5)) in *. set (b := Rpower d (- 0.5)) in *.
  assert (H : (a - 2 * b) * (a + 2 * b) = 0) by nra.
  apply Rmult_integral in H. destruct H; lra.
Qed.

End FormulaFacts.



(** X10. In the Hall-Petch step a grain four times smaller doubles the
    strengthening over the friction stress. *)
Theorem hall_petch_quarter_doubles (s0 k d : R) :
  (0 < d)%R ->
  exists y y4,
    hall_petch s0 k d = Ok (PyFloat.Float y)
    /\ hall_petch s0 k (d / 4) = Ok (PyFloat.Float y4)
    /\ (y4 - s0 = 2 * (y - s0))%R.
Proof.
  intros Hd. do 2 eexists. rewrite !hall_petch_pos by lra.
  split; [reflexivity | ]. split; [reflexivity | ].
  rewrite Rpower_neg_half_quarter by assumption. ring.
Qed.

Lemma hall_petch_quarter_doubles_witness :
  (0 < 0.04)%R
  /\ exists y y4,
       hall_petch 70 23 0.04 = Ok (PyFloat.Float y)
       /\ hall_petch 70 23 (0.04 / 4) = Ok (PyFloat.Float y4)
       /\ (y4 - 70 = 2 * (y - 70))%R.
Proof.
  assert (H : (0 < 0.04)%R) by lra.
  split; [exact H | exact (hall_petch_quarter_doubles 70 23 0.04 H)].
Defined.

(** ** The calibrator *)

Lemma dist_canvas_px_sym (p1 p2 : Z * Z) :
  dist_canvas_px p1 p2 = dist_canvas_px p2 p1.
Proof. unfold dist_canvas_px. f_equal. f_equal. ring. Qed.

Lemma dist_canvas_px_shift (p1 p2 : Z * Z) (tx ty : Z) :
  dist_canvas_px (fst p1 + tx, snd p1 + ty) (fst p2 + tx, snd p2 + ty)
  = dist_canvas_px p1 p2.
Proof. unfold dist_canvas_px. cbn [fst snd]. f_equal. f_equal. ring. Qed.

(** X11. The calibration does not depend on the order of the two clicks
    nor on where on the canvas the pair of points lies: exchanging the
    points or moving both by the same offset gives the same result. *)
Theorem calibration_order_and_position (p1 p2 : Z * Z) (tx ty : Z)
    (ratio : R) (answer : option R) :
  _finalize_scale_measurement p2 p1 ratio answer
  = _finalize_scale_measurement p1 p2 ratio answer
  /\ _finalize_scale_measurement (fst p1 + tx, snd p1 + ty)
       (fst p2 + tx, snd p2 + ty) ratio answer
     = _finalize_scale_measurement p1 p2 ratio answer.
Proof.
  unfold _finalize_scale_measurement.
  rewrite (dist_canvas_px_sym p2 p1), dist_canvas_px_shift. split; reflexivity.
Qed.

Lemma round_half_even_near (y : R) :
  (- (1 / 2) <= IZR (PyFloat.round_half_even y) - y <= 1 / 2)%R.
Proof.
  unfold PyFloat.round_half_even.
  destruct (base_Int_part y) as [H1 H2].
  set (f := Int_part y) in *.
  destruct (Rlt_dec (y - IZR f) (1 / 2)) as [Hlt | Hge].
  - lra.
  - destruct (Rlt_dec (1 / 2) (y - IZR f)) as [Hgt | Hle].
    + rewrite plus_IZR. lra.
    + destruct (Z.even f); [ | rewrite plus_IZR]; lra.
Qed.

Lemma round_half_even_small (y : R) :
  (0 <= y <= 1 / 2)%R -> PyFloat.round_half_even y = 0.
Proof.
  intros Hy. unfold PyFloat.round_half_even.
  assert (Hf : Int_part y = 0).
  { symmetry. apply Int_part_spec. lra. }
  rewrite Hf.
  destruct (Rlt_dec (y - 0) (1 / 2)) as [ | Hge]; [reflexivity | ].
  destruct (Rlt_dec (1 / 2) (y - 0)) as [Hgt | ]; [lra | reflexivity].
Qed.

Lemma round_half_even_large (y : R) :
  (1 / 2 < y)%R -> 1 <= PyFloat.round_half_even y.
Proof.
  intros Hy. unfold PyFloat.round_half_even.
  destruct (base_Int_part y) as [H1 H2].
  set (f := Int_part y) in *.
  assert (Hf : 0 <= f).
  { apply Z.lt_succ_r, lt_IZR. unfold Z.succ. rewrite plus_IZR. lra. }
  destruct (Z.eq_dec f 0) as [Hz | Hnz].
  - rewrite Hz in *. 
    destruct (Rlt_dec (y - 0) (1 / 2)) as [Hlt | Hge]; [lra | ].
    destruct (Rlt_dec (1 / 2) (y - 0)) as [Hgt | Hle]; [lia | lra].
  - destruct (Rlt_dec (y - IZR f) (1 / 2)); [lia | ].
    destruct (Rlt_dec (1 / 2) (y - IZR f)); [lia | ].
    destruct (Z.even f); lia.
Qed.

(** X12. The scale stored in [pixel_scale_var] is the computed ratio
    rounded to a multiple of 0.0001, at most 0.00005 away from it; a
    non-negative ratio of at most 0.00005 is stored as 0 and any larger
    one as at least 0.0001. *)
Theorem stored_scale_precision (p1 p2 : Z * Z) (ratio len px stored : R) :
  _finalize_scale_measurement p1 p2 ratio (Some len) = Ok (ScaleSet px stored) ->
  (exists z, stored = (IZR z / 10000)%R)
  /\ (Rabs (stored - px) <= 0.00005)%R
  /\ ((0 <= px <= 0.00005)%R -> stored = 0%R)
  /\ ((0.00005 < px)%R -> (0.0001 <= stored)%R).
Proof.
  unfold _finalize_scale_measurement. intros H.
  destruct (match PyFloat.div (dist_canvas_px p1 p2) ratio with
            | Raise ZeroDivisionError => Ok (dist_canvas_px p1 p2)
            | r => r
            end) as [d | ]; [ | discriminate].
  cbn [bind] in H.
  destruct (Req_dec_T len 0); [discriminate | ].
  destruct (PyFloat.div d len) as [q | ]; [ | discriminate].
  cbn [bind] in H. injection H as -> <-.
  unfold PyFloat.round4.
  pose proof (round_half_even_near (px * 10000)) as Hnear.
  split; [eexists; reflexivity | ]. split; [ | split].
  - apply Rabs_le. lra.
  - intros Hpx. rewrite round_half_even_small by lra. lra.
  - intros Hpx. pose proof (round_half_even_large (px * 10000) ltac:(lra)) as H1.
    apply IZR_le in H1. lra.
Qed.

Lemma stored_scale_precision_witness :
  _finalize_scale_measurement (0, 0) (60, 80) 0.5%R (Some 10%R)
  = Ok (ScaleSet 20%R 20%R)
  /\ (exists z, 20%R = (IZR z / 10000)%R)
  /\ (Rabs (20 - 20) <= 0.00005)%R
  /\ ((0 <= 20 <= 0.00005)%R -> 20%R = 0%R)
  /\ ((0.00005 < 20)%R -> (0.0001 <= 20)%R).
Proof.
  assert (H : _finalize_scale_measurement (0, 0) (60, 80) 0.5%R (Some 10%R)
              = Ok (ScaleSet 20%R 20%R)).
  { unfold _finalize_scale_measurement. rewrite canvas_distance_60_80.
    rewrite div_nonzero by lra. cbn [bind].
    destruct (Req_dec_T 10 0) as [H0 | _]; [lra | ].
    rewrite div_nonzero by lra. cbn [bind].
    replace (100 / 0.5 / 10)%R with 20%R by lra. now rewrite round4_twenty. }
  split; [exact H | ].
  exact (stored_scale_precision (0, 0) (60, 80) 0.5 10 20 20 H).
Defined.

(** ** The window between events *)

Section WindowFacts.
Context {V : Vision} {F : Frames V}.

(** [display_image] on an array and a canvas of admissible sizes: the
    ratio is stored, and only the external calls can fail. *)
Lemma display_image_stores_ratio (shape winfo : Z * Z) (rendered : bool)
    (st : Gui.window) :
  1 <= fst shape < 2 ^ 31 -> 1 <= snd shape < 2 ^ 31 ->
  fst winfo < 2 ^ 31 -> snd winfo < 2 ^ 31 ->
  exists ratio,
    normal_in (-105) 1 ratio
    /\ Display.scale_to_fit (fst winfo) (snd winfo) (fst shape) (snd shape)
       = Ok ratio
    /\ Gui.display_image shape winfo rendered st
       = (Gui.set_ratio ratio st, if rendered then None else Some Gui.External).
Proof.
  intros Hh Hw Hww Hwh. destruct shape as [h w]. cbn [fst snd] in *.
  destruct (scale_to_fit_value _ _ h w Hww Hwh Hh Hw) as (ratio & Hfit & Hn & _).
  destruct (display_geometry_value _ _ h w Hww Hwh Hh Hw)
    as (ratio' & nw & nh & _ & Hgeo & _).
  exists ratio. split; [exact Hn | ]. split; [exact Hfit | ].
  unfold Gui.display_image. rewrite Hfit, Hgeo. destruct rendered; reflexivity.
Qed.

(** The calibration itself always returns. *)
Lemma calibrator_returns (p1 p2 : Z * Z) (ratio : R) (answer : option R) :
  exists o, _finalize_scale_measurement p1 p2 ratio answer = Ok o.
Proof.
  unfold _finalize_scale_measurement, PyFloat.div.
  destruct (Req_dec_T ratio 0); cbn [bind];
    (destruct answer as [len | ]; [ | eexists; reflexivity]);
    (destruct (Req_dec_T len 0); [eexists; reflexivity | ]);
    cbn [bind]; eexists; reflexivity.
Qed.

Lemma nth_key_is_key (i : nat) (current : string) :
  In current (dict_keys materials_db) ->
  In (nth i (dict_keys materials_db) current) (dict_keys materials_db).
Proof.
  intros Hc. destruct (Nat.lt_ge_cases i (List.length (dict_keys materials_db))).
  - now apply nth_In.
  - now rewrite nth_overflow.
Qed.

Lemma consistent_intro (st : Gui.window) (ratio : spec_float) :
  Gui.current_scale_ratio st = Some ratio -> normal_in (-105) 1 ratio ->
  (Gui.setting_scale st = true -> original_image (Gui.self st) <> None) ->
  In (material_var (Gui.self st)) (dict_keys materials_db) ->
  consistent st.
Proof.
  intros Hr Hn Htool Hmat. split; [ | split; assumption].
  intros _. exists ratio. now split.
Qed.

(** What [display_image] leaves is consistent once an image is loaded or
    the tool is off. *)
Lemma display_image_consistent (shape winfo : Z * Z) (rendered : bool)
    (st : Gui.window) :
  1 <= fst shape < 2 ^ 31 -> 1 <= snd shape < 2 ^ 31 ->
  fst winfo < 2 ^ 31 -> snd winfo < 2 ^ 31 ->
  (Gui.setting_scale st = true -> original_image (Gui.self st) <> None) ->
  In (material_var (Gui.self st)) (dict_keys materials_db) ->
  consistent (fst (Gui.display_image shape winfo rendered st))
  /\ quiet (snd (Gui.display_image shape winfo rendered st))
  /\ Gui.self (fst (Gui.display_image shape winfo rendered st)) = Gui.self st
  /\ Gui.setting_scale (fst (Gui.display_image shape winfo rendered st))
     = Gui.setting_scale st
  /\ (snd (Gui.display_image shape winfo rendered st) = None <-> rendered = true).
Proof.
  intros Hh Hw Hww Hwh Htool Hmat.
  destruct (display_image_stores_ratio shape winfo rendered st Hh Hw Hww Hwh)
    as (ratio & Hn & _ & ->).
  cbn [fst snd]. split; [ | split; [ | split; [reflexivity | split; [reflexivity | ]]]].
  - apply (consistent_intro _ ratio); [reflexivity | exact Hn | exact Htool | exact Hmat].
  - destruct rendered; [now left | right; left; reflexivity].
  - destruct rendered; split; intros H; try reflexivity; discriminate.
Qed.

(** Every handler keeps the window consistent and raises nothing of its
    own. *)
Lemma handle_consistent (ev : Gui.event) (st : Gui.window) :
  Gui.well_sized ev -> consistent st ->
  consistent (fst (Gui.handle ev st)) /\ quiet (snd (Gui.handle ev st)).
Proof.
  intros Hsz Hst. pose proof Hst as (Hratio & Htool & Hmat).
  destruct ev as [path img winfo rendered | text | i | | x y answer winfo rendered
                 | g winfo rendered]; cbn [Gui.handle].
  - (* upload *)
    unfold Gui.load_image.
    destruct (String.eqb path ""); [split; [exact Hst | left; reflexivity] | ].
    destruct img as [i | ].
    2:{ split; [ | left; reflexivity]. split; [exact Hratio | ]. split; [exact Htool | exact Hmat]. }
    unfold Gui.well_sized in Hsz. cbn [Gui.winfo_of] in Hsz.
    destruct winfo as [ww wh]. destruct Hsz as [Hww Hwh].
    destruct (image_shape_range i) as [Hh Hw].
    match goal with
    | |- context [Gui.display_image ?s ?wi ?r ?st0] =>
        destruct (display_image_consistent s wi r st0 Hh Hw Hww Hwh)
          as (Hc & Hq & Hself & Hset & _);
        [cbn; intros _; discriminate | exact Hmat | ];
        destruct (Gui.display_image s wi r st0) as [st3 [e | ]]
    end; cbn [fst snd] in *.
    + split; assumption.
    + split; [ | left; reflexivity]. destruct Hc as (H1 & H2 & H3).
      split; [exact H1 | ]. split; [exact H2 | exact H3].
  - destruct text as [x | ];
      (split; [ | left; reflexivity]; split; [exact Hratio | ];
       split; [exact Htool | exact Hmat]).
  - split; [ | left; reflexivity]. split; [exact Hratio | ]. split; [exact Htool | ].
    cbn -[In dict_keys]. now apply nth_key_is_key.
  - unfold Gui.activate_scale_tool. split; [ | left; reflexivity]. cbn [fst].
    destruct (original_image (Gui.self st)) eqn:Him; [ | exact Hst].
    split; [intros _; apply Hratio; discriminate | ]. split; [ | exact Hmat].
    intros _. cbn. rewrite Him. discriminate.
  - (* click *)
    unfold Gui.on_canvas_click.
    destruct (Gui.setting_scale st) eqn:Hon; cbn [negb];
      [ | split; [exact Hst | left; reflexivity]].
    specialize (Htool eq_refl). specialize (Hratio Htool).
    destruct Hratio as (ratio & Hr & Hn).
    match goal with |- context [(?n =? 2)%nat] => destruct (n =? 2)%nat eqn:Hlen end.
    2:{ split; [ | left; reflexivity].
        apply (consistent_intro _ ratio); [exact Hr | exact Hn | | exact Hmat].
        intros _. exact Htool. }
    cbn [Gui.scale_points Gui.set_tool] in Hlen.
    unfold Gui._finalize_scale_measurement.
    cbn [Gui.scale_points Gui.set_tool Gui.current_scale_ratio].
    destruct (Gui.scale_points st ++ [(x, y)]) as [ | p1 [ | p2 rest]] eqn:Hpts;
      cbn [List.length Nat.eqb] in Hlen; try discriminate.
    rewrite Hr.
    destruct (calibrator_returns p1 p2 (float_value ratio) answer) as (o & ->).
    destruct o as [px stored | ].
    + split; [ | left; reflexivity].
      apply (consistent_intro _ ratio); [exact Hr | exact Hn | | exact Hmat].
      intros H. discriminate H.
    + cbn [Gui.set_results Gui.self].
      destruct (original_image (Gui.self st)) as [i | ] eqn:Him; [ | contradiction].
      cbn [Gui.set_tool Gui.self]. rewrite Him.
      unfold Gui.well_sized in Hsz. cbn [Gui.winfo_of] in Hsz.
      destruct winfo as [ww wh]. destruct Hsz as [Hww Hwh].
      destruct (image_shape_range i) as [Hh Hw].
      match goal with
      | |- context [Gui.display_image ?s ?wi ?r ?st0] =>
          destruct (display_image_consistent s wi r st0 Hh Hw Hww Hwh)
            as (Hc & Hq & Hself & Hset & _);
          [cbn; intros _; rewrite Him; discriminate | exact Hmat | ];
          destruct (Gui.display_image s wi r st0) as [st3 [e | ]]
      end; cbn [fst snd] in *.
      * split; assumption.
      * split; [ | left; reflexivity]. destruct Hc as (H1 & H2 & H3).
        split; [exact H1 | ]. split; [ | exact H3].
        intros H. discriminate H.
  - (* analysis *)
    unfold Gui.analyze_grains.
    unfold Gui.well_sized in Hsz. cbn [Gui.winfo_of] in Hsz.
    destruct winfo as [ww wh]. destruct Hsz as [Hww Hwh].
    destruct (original_image (Gui.self st)) as [i | ] eqn:Him;
      [ | split; [exact Hst | left; reflexivity]].
    destruct (Gui.scale_entry_is_number st); cbn [negb];
      [ | split; [exact Hst | right; right; reflexivity]].
    destruct (analyze_grains (Gui.self st) g) as [ | | edges | e | r] eqn:Hrun.
    + split; [exact Hst | left; reflexivity].
    + split; [exact Hst | left; reflexivity].
    + destruct (mask_shape_range edges) as [Hh Hw].
      match goal with
      | |- context [Gui.display_image ?s ?wi ?r ?st0] =>
          destruct (display_image_consistent s wi r st0 Hh Hw Hww Hwh)
            as (Hc & Hq & _);
          [cbn; rewrite Him; intros _; discriminate | exact Hmat | ]
      end.
      split; assumption.
    + exfalso. exact (listed_material_is_reported _ g Hmat e Hrun).
    + destruct (image_shape_range i) as [Hh Hw].
      match goal with
      | |- context [Gui.display_image ?s ?wi ?r ?st0] =>
          destruct (display_image_consistent s wi r st0 Hh Hw Hww Hwh)
            as (Hc & Hq & _);
          [cbn; rewrite Him; intros _; discriminate | exact Hmat | ]
      end.
      split; assumption.
Qed.

Lemma init_consistent : consistent Gui.init.
Proof.
  split; [intros H; now contradiction H | ].
  split; [discriminate | ]. cbn. now left.
Qed.

Lemma run_consistent (evs : list Gui.event) :
  forall st, Forall Gui.well_sized evs -> consistent st ->
             consistent (Gui.run evs st).
Proof.
  induction evs as [ | ev evs IH]; intros st Hsz Hst; cbn [Gui.run].
  - exact Hst.
  - inversion Hsz as [ | ? ? Hev Hrest]; subst.
    apply IH; [exact Hrest | ]. now apply handle_consistent.
Qed.

End WindowFacts.

Section SessionFacts.
Context {V : Vision} {F : Frames V}.

Lemma display_image_self (shape winfo : Z * Z) (rendered : bool) (st : Gui.window) :
  Gui.self (fst (Gui.display_image shape winfo rendered st)) = Gui.self st
  /\ Gui.setting_scale (fst (Gui.display_image shape winfo rendered st))
     = Gui.setting_scale st
  /\ Gui.scale_points (fst (Gui.display_image shape winfo rendered st))
     = Gui.scale_points st
  /\ Gui.results_text (fst (Gui.display_image shape winfo rendered st))
     = Gui.results_text st
  /\ snd (Gui.display_image shape winfo rendered st) <> Some Gui.TclError.
Proof.
  unfold Gui.display_image. destruct shape as [h w].
  destruct (Display.scale_to_fit _ _ h w); [ | cbn; repeat split; discriminate].
  destruct (Display.display_geometry _ _ h w); [ | cbn; repeat split; discriminate].
  destruct rendered; cbn; repeat split; discriminate.
Qed.


Lemma key_lookup (name : string) :
  In name (dict_keys materials_db) ->
  exists mat, dict_getitem materials_db name = Ok mat.
Proof.
  cbn. intros [<- | [<- | [<- | [<- | [<- | []]]]]]; eexists; reflexivity.
Qed.

Lemma calibrator_scale_set (p1 p2 : Z * Z) (ratio len : R) :
  ratio <> 0%R -> len <> 0%R ->
  _finalize_scale_measurement p1 p2 ratio (Some len)
  = Ok (ScaleSet (dist_canvas_px p1 p2 / ratio / len)
                 (PyFloat.round4 (dist_canvas_px p1 p2 / ratio / len))).
Proof.
  intros Hr Hl. unfold _finalize_scale_measurement, PyFloat.div.
  destruct (Req_dec_T ratio 0) as [ | _]; [contradiction | ]. cbn [bind].
  destruct (Req_dec_T len 0) as [ | _]; [contradiction | ]. reflexivity.
Qed.

Lemma calibrator_cancelled (p1 p2 : Z * Z) (ratio : R) (answer : option R) :
  answer = None \/ answer = Some 0%R ->
  _finalize_scale_measurement p1 p2 ratio answer = Ok MeasurementCancelled.
Proof.
  intros Ha. unfold _finalize_scale_measurement, PyFloat.div.
  destruct (Req_dec_T ratio 0); cbn [bind];
    (destruct Ha as [-> | ->]; [reflexivity | ]);
    (destruct (Req_dec_T 0 0) as [_ | Hn]; [reflexivity | now contradiction Hn]).
Qed.

(** The state after the measure button and a first click. *)
Lemma first_click (st : Gui.window) (i : image) (x1 y1 : Z) (a1 : option R)
    (wi1 : Z * Z) (r1 : bool) :
  original_image (Gui.self st) = Some i ->
  Gui.run [Gui.PressMeasure; Gui.ClickCanvas x1 y1 a1 wi1 r1] st
  = Gui.set_tool true [(x1, y1)] (Gui.set_results Gui.MeasureMode st).
Proof.
  intros Him. cbn [Gui.run Gui.handle fst].
  unfold Gui.activate_scale_tool. rewrite Him. reflexivity.
Qed.

Lemma upload_loads (path : string) (i : image) (winfo : Z * Z) (rendered : bool)
    (st : Gui.window) :
  path <> ""%string ->
  original_image (Gui.self (fst (Gui.load_image path (Some i) winfo rendered st)))
  = Some i.
Proof.
  intros Hp. unfold Gui.load_image.
  destruct (String.eqb_spec path ""); [contradiction | ].
  match goal with
  | |- context [Gui.display_image ?s ?wi ?r ?st0] =>
      destruct (display_image_self s wi r st0) as (Hself & _);
      destruct (Gui.display_image s wi r st0) as [st3 [e | ]]
  end; cbn [fst] in *; cbn; rewrite Hself; reflexivity.
Qed.

Lemma dist_canvas_px_same (p : Z * Z) : dist_canvas_px p p = 0%R.
Proof.
  unfold dist_canvas_px. rewrite !Z.sub_diag. cbn. apply sqrt_0.
Qed.

Lemma round4_zero : PyFloat.round4 0 = 0%R.
Proof.
  unfold PyFloat.round4. rewrite round_half_even_small by lra. lra.
Qed.

End SessionFacts.


(** X14. Between any two events: measure mode is on only while an image is
    loaded; while an image is loaded the display ratio is set and
    positive, so that the division by it in
    [_finalize_scale_measurement] returns and the ZeroDivisionError
    fallback there is never taken; and the selected material is a key of
    the table, so that the lookup in [analyze_grains] returns. *)
Theorem window_invariant {V : Vision} {F : Frames V}
    (evs : list Gui.event) :
  Forall Gui.well_sized evs ->
  let st := Gui.run evs Gui.init in
  (Gui.setting_scale st = true -> original_image (Gui.self st) <> None)
  /\ (original_image (Gui.self st) <> None ->
      exists ratio,
        Gui.current_scale_ratio st = Some ratio
        /\ (0 < float_value ratio)%R
        /\ forall dist, PyFloat.div dist (float_value ratio)
                        = Ok (dist / float_value ratio)%R)
  /\ exists mat, dict_getitem materials_db (material_var (Gui.self st)) = Ok mat.
Proof.
  intros Hevs st.
  destruct (run_consistent evs Gui.init Hevs init_consistent)
    as (Hratio & Htool & Hmat).
  split; [exact Htool | ]. split; [ | now apply key_lookup].
  intros Him. destruct (Hratio Him) as (ratio & Hr & Hn).
  exists ratio. split; [exact Hr | ].
  pose proof (normal_value_pos _ _ _ Hn) as Hpos.
  split; [exact Hpos | ].
  intros dist. apply div_nonzero. lra.
Qed.


(** X16. Clicking the same point twice measures a distance of 0: the scale
    is stored as 0 and every later analysis is refused as an invalid
    pixel scale, with no change to the window, until the scale is
    entered or measured again. *)
Theorem coincident_clicks_block_analysis {V : Vision} {F : Frames V}
    (evs : list Gui.event) (x y : Z)
    (a1 : option R) (len : R) (wi1 wi2 : Z * Z) (r1 r2 : bool) :
  Forall Gui.well_sized evs ->
  let st := Gui.run evs Gui.init in
  original_image (Gui.self st) <> None ->
  len <> 0%R ->
  let st' := Gui.run [Gui.PressMeasure;
                      Gui.ClickCanvas x y a1 wi1 r1;
                      Gui.ClickCanvas x y (Some len) wi2 r2] st in
  pixel_scale_var (Gui.self st') = 0%R
  /\ forall g winfo rendered,
       analyze_grains (Gui.self st') g = InvalidPixelScale
       /\ Gui.handle (Gui.PressAnalyze g winfo rendered) st' = (st', None).
Proof.
  intros Hevs st Him Hlen.
  destruct (run_consistent evs Gui.init Hevs init_consistent) as (Hratio & _ & _).
  fold st in Hratio. destruct (Hratio Him) as (ratio & Hr & Hn).
  intros st'.
  destruct (original_image (Gui.self st)) as [i | ] eqn:Hi; [ | now contradiction Him].
  assert (Hst' : st' = fst (Gui.handle (Gui.ClickCanvas x y (Some len) wi2 r2)
                              (Gui.set_tool true [(x, y)]
                                 (Gui.set_results Gui.MeasureMode st)))).
  { unfold st'.
    change (Gui.run [Gui.PressMeasure; Gui.ClickCanvas x y a1 wi1 r1;
                     Gui.ClickCanvas x y (Some len) wi2 r2] st)
      with (Gui.run [Gui.ClickCanvas x y (Some len) wi2 r2]
              (Gui.run [Gui.PressMeasure; Gui.ClickCanvas x y a1 wi1 r1] st)).
    rewrite (first_click st i) by exact Hi. reflexivity. }
  pose proof (normal_value_pos _ _ _ Hn) as Hpos.
  assert (Hfacts : pixel_scale_var (Gui.self st') = 0%R
                   /\ original_image (Gui.self st') = Some i
                   /\ Gui.scale_entry_is_number st' = true).
  { rewrite Hst'. cbn [Gui.handle]. unfold Gui.on_canvas_click.
    cbn [Gui.set_tool Gui.setting_scale negb Gui.scale_points List.app List.length Nat.eqb].
    unfold Gui._finalize_scale_measurement.
    cbn [Gui.scale_points Gui.current_scale_ratio Gui.set_results Gui.set_tool].
    rewrite Hr. rewrite calibrator_scale_set by (try assumption; lra).
    cbn. rewrite Hi. rewrite dist_canvas_px_same.
    replace (0 / float_value ratio / len)%R with 0%R by (field; split; lra).
    rewrite round4_zero. repeat split. }
  clearbody st'. destruct Hfacts as (Hpx & Hi' & Hnum).
  split; [exact Hpx | ]. intros g winfo rendered.
  assert (Hrun : analyze_grains (Gui.self st') g = InvalidPixelScale).
  { unfold analyze_grains. rewrite Hi', Hpx.
    destruct (Rle_dec 0 0) as [_ | Hn0]; [reflexivity | lra]. }
  split; [exact Hrun | ].
  cbn [Gui.handle]. unfold Gui.analyze_grains. rewrite Hi', Hnum, Hrun. reflexivity.
Qed.

(** X17. A cancelled measurement (dialog closed, or answered with 0) leaves
    the image, the pixel scale and the material as they were.  Measure
    mode is left only when the redraw of the image returns: when it
    fails the window stays in measure mode with its two points, and
    every later click is added to them without a dialog being opened. *)
Theorem cancelled_measurement {V : Vision} {F : Frames V}
    (evs : list Gui.event) (x1 y1 x2 y2 : Z)
    (a1 answer : option R) (wi1 winfo : Z * Z) (r1 rendered : bool) :
  Forall Gui.well_sized evs ->
  let st := Gui.run evs Gui.init in
  original_image (Gui.self st) <> None ->
  answer = None \/ answer = Some 0%R ->
  fst winfo < 2 ^ 31 -> snd winfo < 2 ^ 31 ->
  let st2 := Gui.run [Gui.PressMeasure; Gui.ClickCanvas x1 y1 a1 wi1 r1] st in
  let st3 := fst (Gui.handle (Gui.ClickCanvas x2 y2 answer winfo rendered) st2) in
  let err := snd (Gui.handle (Gui.ClickCanvas x2 y2 answer winfo rendered) st2) in
  Gui.self st3 = Gui.self st
  /\ Gui.results_text st3 = Gui.Cancelled
  /\ (rendered = true -> err = None /\ Gui.setting_scale st3 = false)
  /\ (rendered = false ->
      err = Some Gui.External
      /\ Gui.setting_scale st3 = true
      /\ Gui.scale_points st3 = [(x1, y1); (x2, y2)]
      /\ forall x y a wi r,
           Gui.handle (Gui.ClickCanvas x y a wi r) st3
           = (Gui.set_tool true (Gui.scale_points st3 ++ [(x, y)]) st3, None)).
Proof.
  intros Hevs st Him Hans Hww Hwh.
  destruct (run_consistent evs Gui.init Hevs init_consistent) as (Hratio & _ & _).
  fold st in Hratio. destruct (Hratio Him) as (ratio & Hr & Hn).
  destruct (original_image (Gui.self st)) as [i | ] eqn:Hi; [ | now contradiction Him].
  intros st2 st3 err. unfold st3, err, st2. clear st2 st3 err.
  rewrite (first_click st i) by exact Hi.
  cbn [Gui.handle]. unfold Gui.on_canvas_click.
  cbn [Gui.set_tool Gui.setting_scale negb Gui.scale_points List.app List.length Nat.eqb].
  unfold Gui._finalize_scale_measurement.
  cbn [Gui.scale_points Gui.current_scale_ratio Gui.set_results Gui.set_tool].
  rewrite Hr. rewrite calibrator_cancelled by exact Hans.
  cbn [Gui.self Gui.set_results Gui.set_tool]. rewrite Hi.
  destruct (image_shape_range i) as [Hh Hw].
  match goal with
  | |- context [Gui.display_image ?s ?wi ?r ?st0] =>
      destruct (display_image_stores_ratio s wi r st0 Hh Hw Hww Hwh)
        as (ratio2 & _ & _ & ->)
  end.
  destruct rendered; cbn.
  - split; [reflexivity | ]. split; [reflexivity | ].
    split; [intros _; split; reflexivity | intros H; discriminate H].
  - split; [reflexivity | ]. split; [reflexivity | ].
    split; [intros H; discriminate H | intros _].
    split; [reflexivity | ]. split; [reflexivity | ]. split; reflexivity.
Qed.

(** ** Runs on the concrete frames and sessions *)

Lemma gridded_steel_report (g : nat) :
  exists r, analyze_grains gridded_steel_run g = Analysis r.
Proof.
  destruct (gridded_sample g) as (st & Hst & Hn & Hc).
  pose proof PI_RGT_0 as Hpi.
  destruct (compute_report_known st (PI / 5)%R "Steel (Low Carbon)" _ steel_in_table)
    as (gn & y & _ & _ & Hrep);
    [rewrite Hn; lia | rewrite Hc; lra | lra | ].
  eexists.
  rewrite (analyze_grains_sampled gridded_steel_run g (tt : @image gridded_frame) st);
    [ | reflexivity | cbn; lra | exact Hst].
  rewrite Hn. cbn [Z.eqb]. cbn [pixel_scale_var material_var gridded_steel_run].
  rewrite Hrep. reflexivity.
Qed.

Lemma gridded_session_sized : Forall Gui.well_sized gridded_session.
Proof. repeat constructor; cbn; lia. Qed.

Lemma gridded_session_loaded :
  original_image (Gui.self (Gui.run (F := gridded_arrays) gridded_session Gui.init))
  <> None.
Proof.
  cbn [gridded_session Gui.run Gui.handle].
  rewrite upload_loads; discriminate.
Qed.


Lemma overlay_matches_count_witness :
  exists r,
    analyze_grains gridded_steel_run 1%nat = Analysis r
    /\ List.length (rings (overlay r)) = 5%nat
    /\ Z.of_nat (List.length (dots (overlay r))) = intercepts_counted r.
Proof.
  destruct (gridded_steel_report 1) as (r & Hrun).
  exists r. split; [exact Hrun | ].
  exact (overlay_matches_count gridded_steel_run 1%nat r Hrun).
Defined.

Lemma display_ratio_fits_canvas_witness :
  1366 < 2 ^ 31 /\ 768 < 2 ^ 31 /\ 1 <= 1080 < 2 ^ 31 /\ 1 <= 1920 < 2 ^ 31
  /\ exists ratio,
       Display.scale_to_fit 1366 768 1080 1920 = Ok ratio
       /\ (0 < float_value ratio)%R
       /\ (Rmin (1366 / 1920) (768 / 1080) * (1 - / 2 ^ 51)
           <= float_value ratio
           <= Rmin (1366 / 1920) (768 / 1080) * (1 + / 2 ^ 52))%R
       /\ forall dist, PyFloat.div dist (float_value ratio)
                       = Ok (dist / float_value ratio)%R.
Proof.
  assert (H1 : 1366 < 2 ^ 31) by (cbn; lia).
  assert (H2 : 768 < 2 ^ 31) by (cbn; lia).
  assert (H3 : 1 <= 1080 < 2 ^ 31) by (cbn; lia).
  assert (H4 : 1 <= 1920 < 2 ^ 31) by (cbn; lia).
  split; [exact H1 | ]. split; [exact H2 | ]. split; [exact H3 | ].
  split; [exact H4 | ].
  exact (display_ratio_fits_canvas 1366 768 1080 1920 H1 H2 H3 H4).
Defined.

Lemma display_image_fits_canvas_witness :
  0 < 2 ^ 31 /\ 0 < 2 ^ 31 /\ 1 <= 480 < 2 ^ 31 /\ 1 <= 640 < 2 ^ 31
  /\ exists geo,
       Display.display_geometry 0 0 480 640 = Ok geo
       /\ 0 <= Display.new_w geo <= Display.canvas_width geo
       /\ 0 <= Display.new_h geo <= Display.canvas_height geo
       /\ (Display.canvas_width geo - 1 <= Display.new_w geo
           \/ Display.canvas_height geo - 1 <= Display.new_h geo)
       /\ 0 <= Display.img_offset_x geo
       /\ Display.img_offset_x geo + Display.new_w geo <= Display.canvas_width geo
       /\ 0 <= Display.img_offset_y geo
       /\ Display.img_offset_y geo + Display.new_h geo <= Display.canvas_height geo.
Proof.
  assert (H1 : 0 < 2 ^ 31) by (cbn; lia).
  assert (H3 : 1 <= 480 < 2 ^ 31) by (cbn; lia).
  assert (H4 : 1 <= 640 < 2 ^ 31) by (cbn; lia).
  split; [exact H1 | ]. split; [exact H1 | ]. split; [exact H3 | ].
  split; [exact H4 | ].
  exact (display_image_fits_canvas 0 0 480 640 H1 H1 H3 H4).
Defined.

Lemma display_target_empty_when_elongated_witness :
  800 < 2 ^ 31 /\ 600 < 2 ^ 31 /\ 1 <= 1 < 2 ^ 31 /\ 1 <= 10000 < 2 ^ 31
  /\ exists geo,
       Display.display_geometry 800 600 1 10000 = Ok geo
       /\ (1 < 10000 * Display.canvas_height geo -> 1 <= Display.new_w geo)
       /\ (10000 * Display.canvas_height geo < 1 -> Display.new_w geo = 0)
       /\ (10000 < 1 * Display.canvas_width geo -> 1 <= Display.new_h geo)
       /\ (1 * Display.canvas_width geo < 10000 -> Display.new_h geo = 0).
Proof.
  assert (H1 : 800 < 2 ^ 31) by (cbn; lia).
  assert (H2 : 600 < 2 ^ 31) by (cbn; lia).
  assert (H3 : 1 <= 1 < 2 ^ 31) by (cbn; lia).
  assert (H4 : 1 <= 10000 < 2 ^ 31) by (cbn; lia).
  split; [exact H1 | ]. split; [exact H2 | ]. split; [exact H3 | ].
  split; [exact H4 | ].
  exact (display_target_empty_when_elongated 800 600 1 10000 H1 H2 H3 H4).
Defined.


Lemma window_invariant_witness :
  let st := Gui.run (F := gridded_arrays)
              (gridded_session ++ [Gui.PressMeasure]) Gui.init in
  Forall Gui.well_sized (gridded_session ++ [Gui.PressMeasure])
  /\ (Gui.setting_scale st = true -> original_image (Gui.self st) <> None)
  /\ (original_image (Gui.self st) <> None ->
      exists ratio,
        Gui.current_scale_ratio st = Some ratio
        /\ (0 < float_value ratio)%R
        /\ forall dist, PyFloat.div dist (float_value ratio)
                        = Ok (dist / float_value ratio)%R)
  /\ exists mat, dict_getitem materials_db (material_var (Gui.self st)) = Ok mat.
Proof.
  intros st.
  assert (Hevs : Forall (Gui.well_sized (V := gridded_frame))
                   (gridded_session ++ [Gui.PressMeasure])).
  { repeat constructor; cbn; lia. }
  split; [exact Hevs | ].
  exact (window_invariant (F := gridded_arrays) _ Hevs).
Defined.


Lemma coincident_clicks_block_analysis_witness :
  let st := Gui.run (F := gridded_arrays) gridded_session Gui.init in
  let st' := Gui.run (F := gridded_arrays)
               [Gui.PressMeasure;
                Gui.ClickCanvas 40 40 None (800, 600) true;
                Gui.ClickCanvas 40 40 (Some 25%R) (800, 600) true] st in
  Forall Gui.well_sized gridded_session
  /\ original_image (Gui.self st) <> None
  /\ 25%R <> 0%R
  /\ pixel_scale_var (Gui.self st') = 0%R
  /\ forall g winfo rendered,
       analyze_grains (Gui.self st') g = InvalidPixelScale
       /\ Gui.handle (F := gridded_arrays) (Gui.PressAnalyze g winfo rendered) st' = (st', None).
Proof.
  intros st st'.
  assert (Hlen : 25%R <> 0%R) by lra.
  split; [exact gridded_session_sized | ].
  split; [exact gridded_session_loaded | ]. split; [exact Hlen | ].
  exact (coincident_clicks_block_analysis (F := gridded_arrays) gridded_session
           40 40 None 25 (800, 600) (800, 600) true true
           gridded_session_sized gridded_session_loaded Hlen).
Defined.

Lemma cancelled_measurement_witness :
  let st := Gui.run (F := gridded_arrays) gridded_session Gui.init in
  let st2 := Gui.run (F := gridded_arrays)
               [Gui.PressMeasure; Gui.ClickCanvas 10 10 None (800, 600) true] st in
  let last := Gui.ClickCanvas (V := gridded_frame) 70 90 None (800, 600) false in
  let st3 := fst (Gui.handle (F := gridded_arrays) last st2) in
  let err := snd (Gui.handle (F := gridded_arrays) last st2) in
  Forall Gui.well_sized gridded_session
  /\ original_image (Gui.self st) <> None
  /\ Gui.self st3 = Gui.self st
  /\ Gui.results_text st3 = Gui.Cancelled
  /\ (false = true -> err = None /\ Gui.setting_scale st3 = false)
  /\ (false = false ->
      err = Some Gui.External
      /\ Gui.setting_scale st3 = true
      /\ Gui.scale_points st3 = [(10, 10); (70, 90)]
      /\ forall x y a wi r,
           Gui.handle (F := gridded_arrays) (Gui.ClickCanvas x y a wi r) st3
           = (Gui.set_tool true (Gui.scale_points st3 ++ [(x, y)]) st3, None)).
Proof.
  intros st st2 last st3 err.
  split; [exact gridded_session_sized | ].
  split; [exact gridded_session_loaded | ].
  refine (cancelled_measurement (F := gridded_arrays) gridded_session
            10 10 70 90 None None (800, 600) (800, 600) true false
            gridded_session_sized gridded_session_loaded (or_introl eq_refl) _ _);
    cbn; lia.
Defined.
